(** * edon: module loader and NPM package manager

    A shallow embedding of [internal/modules/loader] (the module loader
    [LoadModule] with its four resolvers, and [NPMPackageManager]) together
    with the properties of the module-resolution design document that can
    be stated about it.

    Go strings are byte strings ([string]); the loader's map is a [gmap];
    [*Module] pointers are locations in an append-only heap; the file
    system and the network are an explicit world threaded through a state
    monad. *)

From Stdlib Require Import ZArith Lia Ascii String List.
From stdpp Require Import base option list strings gmap.

Open Scope string_scope.
Open Scope list_scope.

(** ** Go's [strings] package, the functions the loader uses *)
Module strings.

(** [strings.HasPrefix(s, prefix)] *)
Fixpoint HasPrefix (s pre : string) {struct pre} : bool :=
  match pre, s with
  | EmptyString, _ => true
  | String c pre', String d s' => if Ascii.eqb c d then HasPrefix s' pre' else false
  | String _ _, EmptyString => false
  end.

(** [s[len(prefix):]] *)
Fixpoint drop (n : nat) (s : string) : string :=
  match n, s with
  | O, _ => s
  | S n', String _ s' => drop n' s'
  | S _, EmptyString => EmptyString
  end.

(** [strings.TrimPrefix(s, prefix)]: [s] without the leading [prefix],
    or [s] itself when it does not start with [prefix]. *)
Definition TrimPrefix (s pre : string) : string :=
  if HasPrefix s pre then drop (String.length pre) s else s.

(** [strings.Split(s, sep)] for a one-byte separator [sep]: the
    substrings between the occurrences of [sep]; never the empty list. *)
Fixpoint Split (s : string) (sep : ascii) : list string :=
  match s with
  | EmptyString => [EmptyString]
  | String c s' =>
      if Ascii.eqb c sep then EmptyString :: Split s' sep
      else match Split s' sep with
           | [] => [String c EmptyString]
           | p :: ps => String c p :: ps
           end
  end.

(** [strings.Join(elems, sep)] *)
Fixpoint Join (elems : list string) (sep : string) : string :=
  match elems with
  | [] => ""
  | [e] => e
  | e :: rest => e ++ sep ++ Join rest sep
  end.

(** [strings.ContainsRune(s, c)] for a one-byte [c] *)
Fixpoint Contains (s : string) (c : ascii) : bool :=
  match s with
  | EmptyString => false
  | String d s' => Ascii.eqb d c || Contains s' c
  end.

End strings.

(** ** Go's [path/filepath] package on Unix, the functions the loader uses *)
Module filepath.

Definition Separator : ascii := "/"%char.

(** [filepath.IsAbs] *)
Definition IsAbs (path : string) : bool := strings.HasPrefix path "/".

(** One element of the path being cleaned, against the elements kept so
    far (innermost first). [..] removes the element before it, is kept at
    the start of a relative path and is dropped at the root. *)
Definition clean_step (rooted : bool) (out : list string) (elem : string) : list string :=
  if String.eqb elem "" then out
  else if String.eqb elem "." then out
  else if String.eqb elem ".." then
    match out with
    | top :: below => if String.eqb top ".." then elem :: out else below
    | [] => if rooted then out else [elem]
    end
  else elem :: out.

(** [filepath.Clean]: the shortest equivalent path by lexical processing. *)
Definition Clean (path : string) : string :=
  if String.eqb path "" then "."
  else
    let rooted := IsAbs path in
    let out := fold_left (clean_step rooted) (strings.Split path Separator) [] in
    let body := strings.Join (rev out) "/" in
    if rooted then "/" ++ body
    else if String.eqb body "" then "." else body.

(** The elements from the first non-empty one on. *)
Fixpoint from_first_nonempty (elem : list string) : list string :=
  match elem with
  | [] => []
  | e :: rest => if String.eqb e "" then from_first_nonempty rest else elem
  end.

(** [filepath.Join]: empty elements before the first non-empty one are
    ignored, the rest is joined with the separator and cleaned; the
    result is empty when every element is. *)
Definition Join (elem : list string) : string :=
  match from_first_nonempty elem with
  | [] => ""
  | es => Clean (strings.Join es "/")
  end.

(** The elements of a path without the empty ones that trailing
    separators leave at its end. *)
Fixpoint strip_trailing_empty (elems : list string) : list string :=
  match elems with
  | [] => []
  | e :: rest =>
      match strip_trailing_empty rest with
      | [] => if String.eqb e "" then [] else [e]
      | kept => e :: kept
      end
  end.

(** [filepath.Base]: the last element of the path, trailing separators
    removed first; ["."] for the empty path and ["/"] for a path of
    separators only. *)
Definition Base (path : string) : string :=
  if String.eqb path "" then "."
  else
    match last (strip_trailing_empty (strings.Split path Separator)) with
    | Some e => e
    | None => "/"
    end.

End filepath.

(** ** Results and errors *)

(** A Go result pair [(value, err)]: every [return] of the modelled
    functions has either a value and a nil error, or a non-nil error. *)
Inductive Result (E A : Type) : Type :=
| Ok (a : A)
| Err (e : E).
Arguments Ok {E A} a.
Arguments Err {E A} e.

(** Modelled from the spec: the repository's [internal/errors] package is
    not among the sources. The loader uses its sentinel errors and
    [errors.Wrap(sentinel, message)]; by the design document every failure
    is wrapped into exactly one error kind, with the original cause kept as
    context. An error is therefore a kind and an optional cause text, and
    [Wrap] attaches the cause to the kind of its first argument. *)
Module errors.

Inductive ErrorKind : Type :=
| InvalidSpecifier
| UnsupportedModule
| ModuleNotFound
| FileRead
| PackageNotFound
| PackageFetch
| PackageInstall
| CacheDir
| JSRNotImplemented.

Record Error : Type := { kind : ErrorKind; cause : option string }.

Definition sentinel (k : ErrorKind) : Error := {| kind := k; cause := None |}.

Definition ErrUnsupportedModule : Error := sentinel UnsupportedModule.
Definition ErrModuleNotFound : Error := sentinel ModuleNotFound.
Definition ErrFileRead : Error := sentinel FileRead.
Definition ErrPackageNotFound : Error := sentinel PackageNotFound.
Definition ErrPackageFetch : Error := sentinel PackageFetch.
Definition ErrPackageInstall : Error := sentinel PackageInstall.
Definition ErrCacheDir : Error := sentinel CacheDir.
Definition ErrJSRNotImplemented : Error := sentinel JSRNotImplemented.

Definition Wrap (err : Error) (message : string) : Error :=
  {| kind := kind err; cause := Some message |}.

End errors.
Export errors(ErrorKind, Error, kind, cause).

#[global] Instance ErrorKind_eq_dec : EqDecision ErrorKind.
Proof. solve_decision. Defined.

(** ** The loader's data *)

(** Modelled from the spec: the [PackageType] enumeration is declared next
    to [ValidateURL], outside the sources. The loader names [TypeLocal],
    [TypeCDN], [TypeNPM] and [TypeJSR]; the design document adds the
    unknown scheme, which is what the [default] branch of the loader's
    switch receives. *)
Inductive PackageType : Type :=
| TypeUnknown
| TypeLocal
| TypeCDN
| TypeNPM
| TypeJSR.

#[global] Instance PackageType_eq_dec : EqDecision PackageType.
Proof. solve_decision. Defined.

(** [type Module struct] *)
Record Module : Type := {
  URL : string;
  Content : string;
  Type_ : PackageType
}.

(** Modelled from the spec: the result type of [ValidateURL], of which the
    loader reads [IsValid], [Error] and [PackageType]. *)
Record ValidationResult : Type := {
  IsValid : bool;
  PackageType_ : PackageType;
  Error_ : Error
}.

(** [type NPMPackageManager struct] *)
Record NPMPackageManager : Type := { cacheDir : string }.

(** A [*Module]: the index of a cell of the heap. *)
Definition loc : Type := nat.

(** ** The world: file system, network, trace *)

Inductive Node : Type :=
| File (content : string)
| Dir.

(** What [http.Client.Do] gives back. [Body] is the outcome of
    [io.ReadAll(resp.Body)]. *)
Record Response : Type := {
  StatusCode : Z;
  Body : Result string string
}.

(** The trace records every input/output operation and, as ghost events,
    every entry into a scheme resolver. *)
Inductive Event : Type :=
| EvResolve (t : PackageType) (url : string)
| EvHTTPGet (url : string)
| EvStat (path : string)
| EvReadFile (path : string)
| EvMkdirAll (path : string)
| EvWriteFile (path : string) (data : string).

(** The process environment. The network may answer the same request
    differently at different times: its answer depends on the trace so
    far (most recent event first). *)
Record Env : Type := {
  HOME : string;
  Getwd : Result string string;
  url_error : string -> option string;
  net : list Event -> string -> Result string Response
}.

(** The state a call runs in. [modules] is [l.cache.modules]; [heap] holds
    the [Module] values allocated so far and is only ever extended;
    [trace] lists the events so far, most recent first. *)
Record State : Type := {
  heap : list Module;
  modules : gmap string loc;
  fs : gmap string Node;
  trace : list Event
}.

Definition set_heap (h : list Module) (s : State) : State :=
  {| heap := h; modules := modules s; fs := fs s; trace := trace s |}.
Definition set_modules (m : gmap string loc) (s : State) : State :=
  {| heap := heap s; modules := m; fs := fs s; trace := trace s |}.
Definition set_fs (f : gmap string Node) (s : State) : State :=
  {| heap := heap s; modules := modules s; fs := f; trace := trace s |}.
Definition set_trace (t : list Event) (s : State) : State :=
  {| heap := heap s; modules := modules s; fs := fs s; trace := t |}.

(** ** The state monad *)

Definition M (A : Type) : Type := State -> A * State.

Definition ret {A} (a : A) : M A := fun s => (a, s).
Definition bind {A B} (m : M A) (k : A -> M B) : M B :=
  fun s => let (a, s') := m s in k a s'.

Notation "'do' x <- m ; k" := (bind m (fun x => k))
  (at level 10, x name, m at level 100, k at level 200,
   format "'[v' 'do'  x  <-  m ; '/' k ']'").
Notation "'run' m ; k" := (bind m (fun _ => k))
  (at level 10, m at level 100, k at level 200,
   format "'[v' 'run'  m ; '/' k ']'").

Definition emit (e : Event) : M unit :=
  fun s => (tt, set_trace (e :: trace s) s).

(** [&Module{...}]: a fresh cell at the end of the heap. *)
Definition alloc (m : Module) : M loc :=
  fun s => (length (heap s), set_heap (heap s ++ [m]) s).

(** ** The operating system and the network *)

(** Go's [os] package over the modelled file system. A node of the disk is
    kept under the cleaned spelling of its path, so that the spellings of
    one path ([./proj] and [proj], [/work//proj] and [/work/proj]) name
    one node. The root, the working directory and the directories above
    it always exist; the empty path never does. A relative path is kept
    relative: the disk does not know where the working directory is.
    Errors are Go's [err.Error()] texts. *)
Module os.

(** The key of a path on the disk. *)
Definition key (path : string) : string := filepath.Clean path.

(** The keys that are there on every disk: [/], [.], [..], [../..] and
    so on. *)
Definition fixed (k : string) : bool :=
  String.eqb k "/" || String.eqb k "."
  || forallb (String.eqb "..") (strings.Split k filepath.Separator).

Definition node (f : gmap string Node) (path : string) : option Node :=
  if String.eqb path "" then None
  else if fixed (key path) then Some Dir
  else f !! key path.

(** The proper ancestors of a path, outermost first: ["/a/b/c"] has
    ["/a"] and ["/a/b"]. *)
Definition ancestors (path : string) : list string :=
  let elems := strings.Split path filepath.Separator in
  filter (fun p => p <> "")
         (map (fun k => strings.Join (take k elems) "/") (seq 1 (length elems - 1))).

(** [os.UserHomeDir]: the value of [$HOME]. *)
Definition UserHomeDir (env : Env) : M (Result string string) :=
  if String.eqb (HOME env) "" then ret (Err "$HOME is not defined")
  else ret (Ok (HOME env)).

(** [os.Stat], of which the loader only uses the error. *)
Definition Stat (name : string) : M (Result string unit) :=
  run emit (EvStat name);
  fun s =>
    match node (fs s) name with
    | Some _ => (Ok tt, s)
    | None => (Err ("stat " +:+ name +:+ ": no such file or directory"), s)
    end.

(** [os.ReadFile] *)
Definition ReadFile (name : string) : M (Result string string) :=
  run emit (EvReadFile name);
  fun s =>
    match node (fs s) name with
    | Some (File content) => (Ok content, s)
    | Some Dir => (Err ("read " +:+ name +:+ ": is a directory"), s)
    | None => (Err ("open " +:+ name +:+ ": no such file or directory"), s)
    end.

(** [os.Mkdir] of one path whose parent exists: nothing to do for a
    directory, an error for a file in the way and for the empty path. *)
Definition mkdir_step (acc : Result string (gmap string Node)) (path : string)
  : Result string (gmap string Node) :=
  match acc with
  | Err e => Err e
  | Ok f =>
      if String.eqb path "" then Err "mkdir : no such file or directory"
      else
        match node f path with
        | Some Dir => Ok f
        | Some (File _) => Err ("mkdir " +:+ path +:+ ": not a directory")
        | None => Ok (<[key path := Dir]> f)
        end
  end.

(** [os.MkdirAll]: success at once for an existing directory, an error
    for an existing file, and otherwise every missing ancestor of the
    path as it is spelled and the path itself are created, outermost
    first. *)
Definition MkdirAll (path : string) : M (Result string unit) :=
  run emit (EvMkdirAll path);
  fun s =>
    match node (fs s) path with
    | Some Dir => (Ok tt, s)
    | Some (File _) => (Err ("mkdir " +:+ path +:+ ": not a directory"), s)
    | None =>
        if String.eqb path "" then (Err "mkdir : no such file or directory", s)
        else
          match fold_left mkdir_step (ancestors path ++ [path]) (Ok (fs s)) with
          | Ok f => (Ok tt, set_fs f s)
          | Err e => (Err e, s)
          end
    end.

(** [os.WriteFile]: creates or truncates a regular file in an existing
    directory. *)
Definition WriteFile (name : string) (data : string) : M (Result string unit) :=
  run emit (EvWriteFile name data);
  fun s =>
    if String.eqb name "" then (Err "open : no such file or directory", s)
    else
      match node (fs s) name with
      | Some Dir => (Err ("open " +:+ name +:+ ": is a directory"), s)
      | _ =>
          match last (ancestors name) with
          | None => (Ok tt, set_fs (<[key name := File data]> (fs s)) s)
          | Some parent =>
              match node (fs s) parent with
              | Some Dir => (Ok tt, set_fs (<[key name := File data]> (fs s)) s)
              | Some (File _) => (Err ("open " +:+ name +:+ ": not a directory"), s)
              | None => (Err ("open " +:+ name +:+ ": no such file or directory"), s)
              end
          end
      end.

(** [filepath.Abs]: a cleaned absolute path, by way of the working
    directory for a relative one. *)
Definition Abs (env : Env) (path : string) : M (Result string string) :=
  if filepath.IsAbs path then ret (Ok (filepath.Clean path))
  else
    match Getwd env with
    | Err e => ret (Err e)
    | Ok wd => ret (Ok (filepath.Join [wd; path]))
    end.

End os.

(** Go's [net/http]: a request is built from the URL, which can fail
    without any network traffic, and then sent. *)
Module http.

Definition StatusOK : Z := 200.

(** [http.NewRequestWithContext(ctx, "GET", url, nil)] *)
Definition NewRequest (env : Env) (url : string) : Result string string :=
  match url_error env url with
  | Some e => Err e
  | None => Ok url
  end.

(** [client.Do(req)] *)
Definition Do (env : Env) (req : string) : M (Result string Response) :=
  fun s => (net env (trace s) req, set_trace (EvHTTPGet req :: trace s) s).

(** [http.Get(url)] *)
Definition Get (env : Env) (url : string) : M (Result string Response) :=
  match NewRequest env url with
  | Err e => ret (Err e)
  | Ok req => Do env req
  end.

End http.


(** ** [npm.go]: the NPM package manager *)

(** [InstallPackage], lines 39-44: the name is the text before the first
    [@], the version the text between the first and the second [@], or
    ["latest"] when there is no [@]. *)
Definition splitPackageName (packageName : string) : string * string :=
  let parts := strings.Split packageName "@" in
  let name := hd "" parts in
  let version := match parts with
                 | _ :: v :: _ => v
                 | _ => "latest"
                 end in
  (name, version).

(** [filepath.Join(pm.cacheDir, name, version)] *)
Definition cachePath (pm : NPMPackageManager) (name version : string) : string :=
  filepath.Join [cacheDir pm; name; version].

(** [fmt.Sprintf("https://registry.npmjs.org/%s/%s", name, version)] *)
Definition registryURL (name version : string) : string :=
  "https://registry.npmjs.org/" +:+ name +:+ "/" +:+ version.

Definition placeholderContent : string := "// TODO: Implement package content".

Section Loader.

Variable env : Env.

(** [ValidateURL] is declared outside the sources; the loader is
    verified for every classifier. *)
Variable ValidateURL : string -> ValidationResult.

(** [err.Error()] for the errors of the [errors] package. *)
Variable ErrorText : Error -> string.

(** [NewNPMPackageManager] *)
Definition NewNPMPackageManager : M (Result Error NPMPackageManager) :=
  do home <- os.UserHomeDir env;
  match home with
  | Err err => ret (Err (errors.Wrap errors.ErrCacheDir err))
  | Ok homeDir =>
      let cacheDir := filepath.Join [homeDir; ".edon"; "npm-cache"] in
      do r <- os.MkdirAll cacheDir;
      match r with
      | Err err => ret (Err (errors.Wrap errors.ErrCacheDir err))
      | Ok _ => ret (Ok {| cacheDir := cacheDir |})
      end
  end.

(** [NPMPackageManager.InstallPackage] *)
Definition InstallPackage (pm : NPMPackageManager) (packageName : string)
  : M (Result Error string) :=
  let '(name, version) := splitPackageName packageName in
  let cachePath := cachePath pm name version in
  do st <- os.Stat cachePath;
  match st with
  | Ok _ => ret (Ok cachePath)
  | Err _ =>
      let registryURL := registryURL name version in
      do got <- http.Get env registryURL;
      match got with
      | Err err => ret (Err (errors.Wrap errors.ErrPackageFetch err))
      | Ok resp =>
          if negb (StatusCode resp =? http.StatusOK)%Z
          then ret (Err errors.ErrPackageNotFound)
          else
            do made <- os.MkdirAll cachePath;
            match made with
            | Err err => ret (Err (errors.Wrap errors.ErrCacheDir err))
            | Ok _ =>
                let placeholder := filepath.Join [cachePath; "index.js"] in
                do written <- os.WriteFile placeholder placeholderContent;
                match written with
                | Err err => ret (Err (errors.Wrap errors.ErrPackageInstall err))
                | Ok _ => ret (Ok cachePath)
                end
            end
      end
  end.

(** ** The module loader *)

(** [NewModuleLoader]: a loader with an empty cache. *)
Definition NewModuleLoader : M unit :=
  fun s => (tt, set_modules ∅ s).

(** [ModuleLoader.getFromCache]: the pointer stored under [url], nil
    when there is none. *)
Definition getFromCache (url : string) : M (option loc) :=
  fun s => (modules s !! url, s).

(** [l.cache.modules[urlStr] = module], under the write lock. *)
Definition putInCache (url : string) (module : loc) : M unit :=
  fun s => (tt, set_modules (<[url := module]> (modules s)) s).

(** [ModuleLoader.loadLocalModule] *)
Definition loadLocalModule (path : string) : M (Result Error loc) :=
  run emit (EvResolve TypeLocal path);
  do abs <- os.Abs env path;
  match abs with
  | Err err => ret (Err (errors.Wrap errors.ErrModuleNotFound err))
  | Ok absPath =>
      do read <- os.ReadFile absPath;
      match read with
      | Err err => ret (Err (errors.Wrap errors.ErrFileRead err))
      | Ok content =>
          do m <- alloc {| URL := path; Content := content; Type_ := TypeLocal |};
          ret (Ok m)
      end
  end.

(** [ModuleLoader.loadCDNModule] *)
Definition loadCDNModule (url : string) : M (Result Error loc) :=
  run emit (EvResolve TypeCDN url);
  match http.NewRequest env url with
  | Err err => ret (Err (errors.Wrap errors.ErrModuleNotFound err))
  | Ok req =>
      do got <- http.Do env req;
      match got with
      | Err err => ret (Err (errors.Wrap errors.ErrModuleNotFound err))
      | Ok resp =>
          match Body resp with
          | Err err => ret (Err (errors.Wrap errors.ErrFileRead err))
          | Ok content =>
              do m <- alloc {| URL := url; Content := content; Type_ := TypeCDN |};
              ret (Ok m)
          end
      end
  end.

(** [ModuleLoader.loadNPMModule] *)
Definition loadNPMModule (url : string) : M (Result Error loc) :=
  run emit (EvResolve TypeNPM url);
  let packageName := strings.TrimPrefix url "npm:" in
  do created <- NewNPMPackageManager;
  match created with
  | Err err => ret (Err (errors.Wrap errors.ErrPackageInstall (ErrorText err)))
  | Ok pm =>
      do installed <- InstallPackage pm packageName;
      match installed with
      | Err err => ret (Err (errors.Wrap errors.ErrPackageInstall (ErrorText err)))
      | Ok packagePath =>
          let mainFile := filepath.Join [packagePath; "index.js"] in
          do read <- os.ReadFile mainFile;
          match read with
          | Err err => ret (Err (errors.Wrap errors.ErrFileRead err))
          | Ok content =>
              do m <- alloc {| URL := url; Content := content; Type_ := TypeNPM |};
              ret (Ok m)
          end
      end
  end.

(** [ModuleLoader.loadJSRModule] *)
Definition loadJSRModule (url : string) : M (Result Error loc) :=
  run emit (EvResolve TypeJSR url);
  ret (Err errors.ErrJSRNotImplemented).

(** The [switch validation.PackageType] of [LoadModule]. Its [default]
    branch returns [nil, errors.ErrUnsupportedModule] at once, which is
    also what the error check after the switch returns. *)
Definition dispatch (t : PackageType) (urlStr : string) : M (Result Error loc) :=
  match t with
  | TypeLocal => loadLocalModule urlStr
  | TypeCDN => loadCDNModule urlStr
  | TypeNPM => loadNPMModule urlStr
  | TypeJSR => loadJSRModule urlStr
  | TypeUnknown => ret (Err errors.ErrUnsupportedModule)
  end.

(** [ModuleLoader.LoadModule] *)
Definition LoadModule (urlStr : string) : M (Result Error loc) :=
  let validation := ValidateURL urlStr in
  if negb (IsValid validation) then ret (Err (Error_ validation))
  else
    do cached <- getFromCache urlStr;
    match cached with
    | Some module => ret (Ok module)
    | None =>
        do loaded <- dispatch (PackageType_ validation) urlStr;
        match loaded with
        | Err err => ret (Err err)
        | Ok module =>
            run putInCache urlStr module;
            ret (Ok module)
        end
    end.

End Loader.

(** ** Observations on traces *)

Definition is_resolve (e : Event) : bool :=
  match e with EvResolve _ _ => true | _ => false end.

Definition is_request (e : Event) : bool :=
  match e with EvHTTPGet _ => true | _ => false end.

Definition is_disk_write (e : Event) : bool :=
  match e with EvMkdirAll _ | EvWriteFile _ _ => true | _ => false end.

Definition count_events (p : Event -> bool) (tr : list Event) : nat :=
  length (filter (fun e => p e = true) tr).

(** How many times a scheme resolver has been entered. *)
Definition resolver_calls (s : State) : nat := count_events is_resolve (trace s).

(** How many HTTP requests have been sent. *)
Definition requests (s : State) : nat := count_events is_request (trace s).

(** How many directory creations and file writes have been issued. *)
Definition disk_writes (s : State) : nat := count_events is_disk_write (trace s).


(** ** The content cache *)

(** The three schemes whose resolver can produce a module. *)
Definition producing (t : PackageType) : Prop :=
  t = TypeLocal \/ t = TypeCDN \/ t = TypeNPM.

(** The invariant of the content cache: every key is a valid specifier
    and points to an allocated module that carries the key as its URL
    and the scheme the key classifies to, which is one whose resolver
    produces modules. *)
Definition cache_inv (ValidateURL : string -> ValidationResult) (s : State) : Prop :=
  forall (k : string) (l : loc),
    modules s !! k = Some l ->
    exists m, heap s !! l = Some m
              /\ URL m = k
              /\ IsValid (ValidateURL k) = true
              /\ Type_ m = PackageType_ (ValidateURL k)
              /\ producing (Type_ m).

(** Every heap cell of [s] is a cell of [s'] with the same contents. *)
Definition heap_preserved (s s' : State) : Prop :=
  forall (l : loc) (m : Module), heap s !! l = Some m -> heap s' !! l = Some m.

(** The states of a loader's life: it is created with an empty cache,
    [LoadModule] is called on it, and in between the world outside may
    change the disk. *)
Inductive reachable (env : Env) (ValidateURL : string -> ValidationResult)
    (ErrorText : Error -> string) : State -> Prop :=
| reach_new (s : State) :
    reachable env ValidateURL ErrorText (snd (NewModuleLoader s))
| reach_load (urlStr : string) (s : State) :
    reachable env ValidateURL ErrorText s ->
    reachable env ValidateURL ErrorText (snd (LoadModule env ValidateURL ErrorText urlStr s))
| reach_disk (f : gmap string Node) (s : State) :
    reachable env ValidateURL ErrorText s ->
    reachable env ValidateURL ErrorText (set_fs f s).


(** ** Two concurrent calls of [LoadModule]

    The read lock makes the cache lookup atomic and the write lock makes
    the store atomic; nothing is held in between. A call is therefore a
    sequence of three atomic steps, and two goroutines interleave at
    these steps. The resolver is taken as one step: interleavings inside
    it only add schedules. *)

Inductive Pc : Type :=
| Entered
| Missed
| Loaded (module : loc)
| Returned (r : Result Error loc).

Section Goroutines.

Variable env : Env.
Variable ValidateURL : string -> ValidationResult.
Variable ErrorText : Error -> string.

(** One atomic step of a call of [LoadModule urlStr]. *)
Definition call_step (urlStr : string) (pc : Pc) : M Pc :=
  match pc with
  | Entered =>
      let validation := ValidateURL urlStr in
      if negb (IsValid validation) then ret (Returned (Err (Error_ validation)))
      else
        do cached <- getFromCache urlStr;
        match cached with
        | Some module => ret (Returned (Ok module))
        | None => ret Missed
        end
  | Missed =>
      do loaded <- dispatch env ErrorText (PackageType_ (ValidateURL urlStr)) urlStr;
      match loaded with
      | Err err => ret (Returned (Err err))
      | Ok module => ret (Loaded module)
      end
  | Loaded module =>
      run putInCache urlStr module;
      ret (Returned (Ok module))
  | Returned r => ret (Returned r)
  end.

(** Two goroutines calling [LoadModule] with the same specifier, and the
    state they share. *)
Record Config : Type := {
  first : Pc;
  second : Pc;
  shared : State
}.

(** The scheduler picks the first ([true]) or the second ([false])
    goroutine for the next step. *)
Definition sched_step (urlStr : string) (c : Config) (pick : bool) : Config :=
  if pick then
    let (pc, s) := call_step urlStr (first c) (shared c) in
    {| first := pc; second := second c; shared := s |}
  else
    let (pc, s) := call_step urlStr (second c) (shared c) in
    {| first := first c; second := pc; shared := s |}.

Definition run_schedule (urlStr : string) (sched : list bool) (c : Config) : Config :=
  fold_left (sched_step urlStr) sched c.

Definition start (s : State) : Config :=
  {| first := Entered; second := Entered; shared := s |}.

Definition returned (pc : Pc) : Prop :=
  match pc with Returned _ => True | _ => False end.

End Goroutines.

(** ** A classifier and two environments to run the loader in *)

(** Modelled from the spec: the specifier classifier [ValidateURL] is
    outside the sources. By the design document a string beginning with
    [npm:] classifies as NPM, one beginning with [jsr:] as JSR, one
    beginning with [http://] or [https://] as CDN and every other string
    as a local path; a recognised scheme with an empty package name is
    invalid. *)
Definition SpecValidateURL (specifier : string) : ValidationResult :=
  let valid t := {| IsValid := true; PackageType_ := t;
                    Error_ := errors.sentinel errors.InvalidSpecifier |} in
  let invalid t := {| IsValid := false; PackageType_ := t;
                      Error_ := errors.Wrap (errors.sentinel errors.InvalidSpecifier)
                                            "empty package name" |} in
  if strings.HasPrefix specifier "npm:" then
    if String.eqb (strings.TrimPrefix specifier "npm:") "" then invalid TypeNPM
    else valid TypeNPM
  else if strings.HasPrefix specifier "jsr:" then
    if String.eqb (strings.TrimPrefix specifier "jsr:") "" then invalid TypeJSR
    else valid TypeJSR
  else if strings.HasPrefix specifier "http://" || strings.HasPrefix specifier "https://"
  then valid TypeCDN
  else valid TypeLocal.

(** Modelled from the spec: the text of an error of the [errors] package,
    its kind followed by its cause. *)
Definition SpecErrorText (e : Error) : string :=
  let k := match kind e with
           | errors.InvalidSpecifier => "invalid specifier"
           | errors.UnsupportedModule => "unsupported module"
           | errors.ModuleNotFound => "module not found"
           | errors.FileRead => "file read failed"
           | errors.PackageNotFound => "package not found"
           | errors.PackageFetch => "package fetch failed"
           | errors.PackageInstall => "package install failed"
           | errors.CacheDir => "cache directory failed"
           | errors.JSRNotImplemented => "jsr not implemented"
           end in
  match cause e with
  | Some c => k +:+ ": " +:+ c
  | None => k
  end.

(** A server that answers every request with [404 Not Found]. *)
Definition env404 : Env := {|
  HOME := "/home/u";
  Getwd := Ok "/work";
  url_error := fun _ => None;
  net := fun _ _ => Ok {| StatusCode := 404; Body := Ok "404 page not found" |}
|}.

(** A server that answers every request with [200 OK]. *)
Definition env200 : Env := {|
  HOME := "/home/u";
  Getwd := Ok "/work";
  url_error := fun _ => None;
  net := fun _ url => Ok {| StatusCode := 200; Body := Ok ("export default 1 // " +:+ url) |}
|}.

(** A fresh process: nothing allocated, an empty cache, an empty trace. *)
Definition fresh (f : gmap string Node) : State :=
  {| heap := []; modules := ∅; fs := f; trace := [] |}.

(** A disk with one source file. *)
Definition disk0 : gmap string Node :=
  <["/work" := Dir]> (<["/work/foo.js" := File "export const foo = 1"]> ∅).

(** How many resolver entries a goroutine at [pc] can have behind it, and
    whether its resolver has returned. *)
Definition resolved_at_most (pc : Pc) : nat :=
  match pc with
  | Entered | Missed => 0
  | Loaded _ | Returned _ => 1
  end.

Definition past_resolver (pc : Pc) : Prop :=
  match pc with
  | Entered | Missed => False
  | Loaded _ | Returned _ => True
  end.

(** ** The command line: [edon install] and [edon init]

    A command runs in the world of the loader and writes lines to the
    standard output. *)

Record Process : Type := {
  world : State;
  stdout : list string
}.

Definition P (A : Type) : Type := Process -> A * Process.

Definition retP {A} (a : A) : P A := fun p => (a, p).
Definition bindP {A B} (m : P A) (k : A -> P B) : P B :=
  fun p => let (a, p') := m p in k a p'.

Notation "'doP' x <- m ; k" := (bindP m (fun x => k))
  (at level 10, x name, m at level 100, k at level 200,
   format "'[v' 'doP'  x  <-  m ; '/' k ']'").
Notation "'runP' m ; k" := (bindP m (fun _ => k))
  (at level 10, m at level 100, k at level 200,
   format "'[v' 'runP'  m ; '/' k ']'").

(** An operation on the world, run by a command. *)
Definition lift {A} (m : M A) : P A :=
  fun p => let (a, w) := m (world p) in (a, {| world := w; stdout := stdout p |}).

(** [fmt.Printf], and [color.Green] with the newline it appends: one more
    text on the standard output (colour codes left out). *)
Definition print (text : string) : P unit :=
  fun p => (tt, {| world := world p; stdout := stdout p ++ [text] |}).

Definition newline : string := String "010"%char "".
Definition dquote : string := String "034"%char "".
Definition checkmark : string := String "226"%char (String "156"%char (String "147"%char "")).

Definition indexJSContent : string := "console.log('Hello from Edon!');".

Section Commands.

Variable env : Env.

(** [err.Error()] for the errors of the [errors] package. *)
Variable ErrorText : Error -> string.

(** [encoding/json]'s rendering of a Go string as a JSON string literal,
    quotes included. *)
Variable jsonString : string -> string.

(** The loop of [handleInstall] over [installCmd.Args()]. *)
Fixpoint installEach (pm : NPMPackageManager) (args : list string) : P (Result string unit) :=
  match args with
  | [] => retP (Ok tt)
  | pkg :: rest =>
      runP print ("Installing " +:+ pkg +:+ "..." +:+ newline);
      doP installed <- lift (InstallPackage env pm pkg);
      match installed with
      | Err err =>
          retP (Err ("failed to install " +:+ pkg +:+ ": " +:+ ErrorText err))
      | Ok path =>
          runP print ("Successfully installed " +:+ pkg +:+ " at " +:+ path +:+ newline);
          installEach pm rest
      end
  end.

(** [handleInstall], with [installCmd.Args()] as its argument. *)
Definition handleInstall (args : list string) : P (Result string unit) :=
  if (length args <? 1)%nat then retP (Err "package name is required")
  else
    doP created <- lift (NewNPMPackageManager env);
    match created with
    | Err err =>
        retP (Err ("failed to initialize NPM package manager: " +:+ ErrorText err))
    | Ok pm => installEach pm args
    end.

(** [json.MarshalIndent(packageJSON, "", "  ")] for the map of
    [HandleInit]: the keys in sorted order, two spaces of indentation per
    level. Only the project name varies. *)
Definition packageJSON (name : string) : string :=
  let q s := dquote +:+ s +:+ dquote in
  "{" +:+ newline
  +:+ "  " +:+ q "description" +:+ ": " +:+ q "A new Edon project" +:+ "," +:+ newline
  +:+ "  " +:+ q "main" +:+ ": " +:+ q "index.js" +:+ "," +:+ newline
  +:+ "  " +:+ q "name" +:+ ": " +:+ jsonString name +:+ "," +:+ newline
  +:+ "  " +:+ q "scripts" +:+ ": {" +:+ newline
  +:+ "    " +:+ q "start" +:+ ": " +:+ q "edon index.js" +:+ newline
  +:+ "  }," +:+ newline
  +:+ "  " +:+ q "version" +:+ ": " +:+ q "1.0.0" +:+ newline
  +:+ "}".

(** [HandleInit], with [InitCmd.Arg(0)] as its argument (empty when no
    directory is given). Marshalling a map of strings cannot fail. *)
Definition HandleInit (arg0 : string) : P (Result string unit) :=
  doP chosen <-
    (if String.eqb arg0 "" then
       match Getwd env with
       | Err err => retP (Err ("failed to get current directory: " +:+ err))
       | Ok wd => retP (Ok wd)
       end
     else retP (Ok arg0));
  match chosen with
  | Err e => retP (Err e)
  | Ok dir =>
      doP made <- lift (os.MkdirAll dir);
      match made with
      | Err err => retP (Err ("failed to create project directory: " +:+ err))
      | Ok _ =>
          let packageJSONBytes := packageJSON (filepath.Base dir) in
          doP written <- lift (os.WriteFile (filepath.Join [dir; "package.json"])
                                            packageJSONBytes);
          match written with
          | Err err => retP (Err ("failed to write package.json: " +:+ err))
          | Ok _ =>
              doP written' <- lift (os.WriteFile (filepath.Join [dir; "index.js"])
                                                 indexJSContent);
              match written' with
              | Err err => retP (Err ("failed to write index.js: " +:+ err))
              | Ok _ =>
                  runP print (checkmark +:+ " Successfully initialized new Edon project in "
                              +:+ dir +:+ newline);
                  runP print (checkmark +:+ " Created package.json" +:+ newline);
                  runP print (checkmark +:+ " Created index.js" +:+ newline);
                  retP (Ok tt)
              end
          end
      end
  end.

End Commands.

(** A process that has printed nothing yet. *)
Definition boot (s : State) : Process := {| world := s; stdout := [] |}.

(** A rendering of JSON strings for names that need no escaping. *)
Definition plainJSONString (s : string) : string := dquote +:+ s +:+ dquote.

(** Every node of the disk [f] is still on the disk [f'], and every
    directory of [f] is still a directory. *)
Definition disk_extends (f f' : gmap string Node) : Prop :=
  forall q : string,
    (os.node f q = Some Dir -> os.node f' q = Some Dir)
    /\ (is_Some (os.node f q) -> is_Some (os.node f' q)).

(** The package manager [NewNPMPackageManager] returns in [env]. *)
Definition defaultManager (env : Env) : NPMPackageManager :=
  {| cacheDir := filepath.Join [HOME env; ".edon"; "npm-cache"] |}.

(** The cache path [InstallPackage] uses for a package reference. *)
Definition cachePathOf (pm : NPMPackageManager) (packageName : string) : string :=
  let '(name, version) := splitPackageName packageName in cachePath pm name version.

(** A file name that [filepath.Clean] keeps as it is: not empty, not [.]
    or [..], without a separator. *)
Definition plain_name (n : string) : Prop :=
  strings.Contains n filepath.Separator = false /\ n <> "" /\ n <> "." /\ n <> "..".

(** The directory [HandleInit] works in. *)
Definition initDir (env : Env) (arg0 : string) : string :=
  if String.eqb arg0 "" then
    match Getwd env with
    | Ok wd => wd
    | Err _ => ""
    end
  else arg0.

(** What a successful [HandleInit] in a directory leaves behind: the
    directory, its two files with their contents, everything that was on
    the disk before, three lines of output, and an untouched loader. *)
Definition initialized (jsonString : string -> string) (dir : string) (p p' : Process) : Prop :=
  os.node (fs (world p')) dir = Some Dir
  /\ os.node (fs (world p')) (filepath.Join [dir; "package.json"])
     = Some (File (packageJSON jsonString (filepath.Base dir)))
  /\ os.node (fs (world p')) (filepath.Join [dir; "index.js"])
     = Some (File indexJSContent)
  /\ disk_extends (fs (world p)) (fs (world p'))
  /\ modules (world p') = modules (world p)
  /\ heap (world p') = heap (world p)
  /\ requests (world p') = requests (world p)
  /\ stdout p'
     = stdout p
       ++ [checkmark +:+ " Successfully initialized new Edon project in " +:+ dir +:+ newline;
           checkmark +:+ " Created package.json" +:+ newline;
           checkmark +:+ " Created index.js" +:+ newline].


(** What a goroutine at [pc] holds, in the shared state [s]: past the
    cache check the specifier is valid, and a module it holds or has
    returned is allocated, carries the specifier as its URL and has the
    scheme the specifier classifies to. *)
Definition pc_ok (ValidateURL : string -> ValidationResult) (urlStr : string)
    (s : State) (pc : Pc) : Prop :=
  match pc with
  | Entered => True
  | Missed => IsValid (ValidateURL urlStr) = true
  | Loaded l | Returned (Ok l) =>
      exists m, heap s !! l = Some m
                /\ URL m = urlStr
                /\ IsValid (ValidateURL urlStr) = true
                /\ Type_ m = PackageType_ (ValidateURL urlStr)
                /\ producing (Type_ m)
  | Returned (Err _) => True
  end.
(** * Properties *)

Example Clean_samples :
  map filepath.Clean
      ["abc//def//ghi"; "abc/./def"; "abc/def/../ghi/../jkl"; "/../abc"; "../../abc";
       "abc/.."; "/"; "//abc/"; "abc/../../././../def"; ""; "/abc/def/../../.."]
  = ["abc/def/ghi"; "abc/def"; "abc/jkl"; "/abc"; "../../abc";
     "."; "/"; "/abc"; "../../def"; "."; "/"].
Proof. reflexivity. Qed.

Example Join_samples :
  map filepath.Join [["a"; "b"]; ["a"; ""]; [""; "b"]; ["/"; "a"]; ["a/"; "b"]; [""; ""]; ["a"; "../b"]]
  = ["a/b"; "a"; "b"; "/a"; "a/b"; ""; "b"].
Proof. reflexivity. Qed.

Example ancestors_samples :
  map os.ancestors ["/a/b/c"; "a/b"; "/a"; "a"; "/"; ""]
  = [["/a"; "/a/b"]; ["a"]; []; []; []; []].
Proof. vm_compute. reflexivity. Qed.

Lemma count_events_cons p e tr :
  count_events p (e :: tr) = (if p e then 1 else 0) + count_events p tr.
Proof.
  unfold count_events. rewrite filter_cons.
  destruct (p e); destruct (decide _); simpl; congruence.
Qed.

(** ** Unfolding the monad *)

Ltac unfold_os :=
  unfold os.Stat, os.ReadFile, os.MkdirAll, os.WriteFile, os.UserHomeDir, os.Abs,
    http.Get, http.Do in *.

Ltac unfold_monad :=
  unfold bind, ret, emit, alloc in *.

Ltac crunch :=
  repeat (simpl in *; simplify_eq; try case_match).

Section Frames.

Variable env : Env.
Variable ValidateURL : string -> ValidationResult.
Variable ErrorText : Error -> string.

Lemma NewNPMPackageManager_frame s r s' :
  NewNPMPackageManager env s = (r, s') ->
  modules s' = modules s /\ heap s' = heap s
  /\ resolver_calls s' = resolver_calls s.
Proof.
  unfold NewNPMPackageManager, resolver_calls. unfold_os. unfold_monad.
  intros H. crunch; rewrite ?count_events_cons; auto.
Qed.

Lemma InstallPackage_frame pm p s r s' :
  InstallPackage env pm p s = (r, s') ->
  modules s' = modules s /\ heap s' = heap s
  /\ resolver_calls s' = resolver_calls s.
Proof.
  unfold InstallPackage, resolver_calls. unfold_os. unfold_monad.
  intros H. crunch; rewrite ?count_events_cons; auto.
Qed.

(** A resolver never touches the cache, never changes an existing heap
    cell, allocates exactly the returned module on success and nothing
    on failure, and is recorded once in the trace. *)
Lemma dispatch_spec t url s r s' :
  dispatch env ErrorText t url s = (r, s') ->
  modules s' = modules s
  /\ match r with
     | Err _ => heap s' = heap s
     | Ok l => l = length (heap s)
               /\ (exists content,
                     heap s' = heap s ++ [{| URL := url; Content := content; Type_ := t |}])
               /\ (t = TypeLocal \/ t = TypeCDN \/ t = TypeNPM)
     end
  /\ resolver_calls s' = (if decide (t = TypeUnknown) then 0 else 1) + resolver_calls s.
Proof.
  destruct t; simpl.
  - unfold ret. intros; simplify_eq. auto.
  - unfold loadLocalModule, resolver_calls. unfold_os. unfold_monad.
    intros H. crunch; rewrite ?count_events_cons; simpl; eauto 10.
  - unfold loadCDNModule, resolver_calls. unfold_os. unfold_monad.
    intros H. crunch; rewrite ?count_events_cons; simpl; eauto 10.
  - unfold loadNPMModule. unfold bind at 1 2. simpl.
    destruct (NewNPMPackageManager _ _) as [r1 s1] eqn:E1.
    apply NewNPMPackageManager_frame in E1 as (Em1 & Eh1 & Ec1).
    unfold resolver_calls in *; simpl in *. rewrite count_events_cons in Ec1. simpl in Ec1.
    destruct r1 as [pm|e]; [|unfold ret; intros; simplify_eq; auto].
    unfold bind at 1.
    destruct (InstallPackage _ _ _ _) as [r2 s2] eqn:E2.
    apply InstallPackage_frame in E2 as (Em2 & Eh2 & Ec2).
    unfold resolver_calls in *.
    destruct r2 as [path|e]; [|unfold ret; intros; simplify_eq; split; [|split]; congruence].
    unfold_os. unfold_monad.
    intros H. crunch; rewrite ?count_events_cons; simpl;
      (split; [congruence|split; [|congruence]]); rewrite ?Eh2, ?Eh1; eauto 10.
  - unfold loadJSRModule, resolver_calls. unfold_monad.
    intros H. crunch; rewrite ?count_events_cons; simpl; auto.
Qed.

End Frames.

(** ** The content cache *)

Section Cache.

Variable env : Env.
Variable ValidateURL : string -> ValidationResult.
Variable ErrorText : Error -> string.

Local Abbreviation LoadModule := (LoadModule env ValidateURL ErrorText).
Local Abbreviation dispatch := (dispatch env ErrorText).
Local Abbreviation cache_inv := (cache_inv ValidateURL).

Lemma NewModuleLoader_inv s : cache_inv (snd (NewModuleLoader s)).
Proof. intros k l. simpl. rewrite lookup_empty. discriminate. Qed.

(** The three ways a call of [LoadModule] can go. *)
Lemma LoadModule_cases urlStr s r s' :
  LoadModule urlStr s = (r, s') ->
  (IsValid (ValidateURL urlStr) = false /\ r = Err (Error_ (ValidateURL urlStr)) /\ s' = s)
  \/ (IsValid (ValidateURL urlStr) = true
      /\ exists l, modules s !! urlStr = Some l /\ r = Ok l /\ s' = s)
  \/ (IsValid (ValidateURL urlStr) = true /\ modules s !! urlStr = None
      /\ exists r1 s1,
          dispatch (PackageType_ (ValidateURL urlStr)) urlStr s = (r1, s1)
          /\ r = r1
          /\ s' = match r1 with
                  | Ok l => set_modules (<[urlStr := l]> (modules s1)) s1
                  | Err _ => s1
                  end).
Proof.
  unfold LoadModule.
  destruct (IsValid (ValidateURL urlStr)); simpl.
  2: { unfold ret. intros; simplify_eq. auto. }
  unfold bind at 1. unfold getFromCache.
  destruct (modules s !! urlStr) as [l|] eqn:Hc.
  { unfold ret. intros; simplify_eq. right; left. eauto. }
  unfold bind at 1.
  destruct (dispatch _ _ _) as [r1 s1] eqn:Hd.
  intros H. right; right. split; [done|]. split; [done|].
  exists r1, s1. split; [done|].
  destruct r1; unfold bind, ret, putInCache in H; simplify_eq; auto.
Qed.

Lemma LoadModule_hit urlStr s l :
  IsValid (ValidateURL urlStr) = true ->
  modules s !! urlStr = Some l ->
  LoadModule urlStr s = (Ok l, s).
Proof.
  intros Hv Hc. unfold LoadModule, bind, getFromCache, ret.
  rewrite Hv. simpl. by rewrite Hc.
Qed.

Lemma LoadModule_miss urlStr s :
  IsValid (ValidateURL urlStr) = true ->
  modules s !! urlStr = None ->
  LoadModule urlStr s
  = match dispatch (PackageType_ (ValidateURL urlStr)) urlStr s with
    | (Ok l, s1) => (Ok l, set_modules (<[urlStr := l]> (modules s1)) s1)
    | (Err e, s1) => (Err e, s1)
    end.
Proof.
  intros Hv Hc. unfold LoadModule, bind, getFromCache, ret, putInCache.
  rewrite Hv. simpl. rewrite Hc.
  destruct (dispatch _ _ _) as [[l|e] s1]; done.
Qed.

Lemma heap_preserved_app s s' ext :
  heap s' = heap s ++ ext -> heap_preserved s s'.
Proof. intros E l m H. rewrite E. by apply lookup_app_l_Some. Qed.

Lemma cache_inv_heap s s' :
  modules s' = modules s -> heap_preserved s s' -> cache_inv s -> cache_inv s'.
Proof.
  intros Em Hh Hinv k l Hk. rewrite Em in Hk.
  destruct (Hinv k l Hk) as (m & Hm & ?). exists m. split; [by apply Hh | done].
Qed.

(** Storing a freshly allocated module under its own URL keeps the
    invariant. *)
Lemma cache_inv_store (s s1 : State) (m : Module) :
  cache_inv s ->
  modules s1 = modules s ->
  heap s1 = heap s ++ [m] ->
  IsValid (ValidateURL (URL m)) = true ->
  Type_ m = PackageType_ (ValidateURL (URL m)) ->
  producing (Type_ m) ->
  cache_inv (set_modules (<[URL m := length (heap s)]> (modules s1)) s1).
Proof.
  intros Hinv Em Eh Hv Ht Hp k l Hk. simpl in *.
  destruct (decide (URL m = k)) as [<-|Hne].
  - rewrite lookup_insert_eq in Hk. simplify_eq.
    exists m. split; [|done].
    rewrite Eh, lookup_app_r by lia. by rewrite Nat.sub_diag.
  - rewrite lookup_insert_ne in Hk by done. rewrite Em in Hk.
    destruct (Hinv _ _ Hk) as (m' & Hm' & ?). exists m'. split; [|done].
    rewrite Eh. by apply lookup_app_l_Some.
Qed.

Lemma LoadModule_inv (urlStr : string) (s : State) :
  cache_inv s -> cache_inv (snd (LoadModule urlStr s)).
Proof.
  intros Hinv. destruct (LoadModule urlStr s) as [r s'] eqn:Hload. simpl.
  destruct (LoadModule_cases _ _ _ _ Hload)
    as [(_ & _ & ->) | [(_ & _ & _ & _ & ->) | (Hv & Hc & r1 & s1 & Hd & -> & ->)]];
    [done|done|].
  apply dispatch_spec in Hd as (Em & Hr & _).
  destruct r1 as [l|e].
  - destruct Hr as (-> & (content & Eh) & Hp).
    by apply (cache_inv_store s s1 _ Hinv Em Eh).
  - eapply cache_inv_heap; [exact Em| |exact Hinv]. intros ? ?. by rewrite Hr.
Qed.

(** The invariant holds throughout the life of a loader. *)
Lemma reachable_cache_inv (s : State) :
  reachable env ValidateURL ErrorText s -> cache_inv s.
Proof.
  induction 1 as [s | urlStr s _ IH | f s _ IH].
  - apply NewModuleLoader_inv.
  - by apply LoadModule_inv.
  - exact IH.
Qed.

(** C10. The invariant of the content cache is preserved by every call of
    [LoadModule]: afterwards every entry still maps its key to an
    allocated module whose URL is that key and whose scheme is the one of
    the resolver the key dispatches to; every module that existed before
    the call is unchanged; and a returned module is the one stored under
    the specifier. *)
Theorem LoadModule_preserves_cache_inv (urlStr : string) (s s' : State) (r : Result Error loc) :
  cache_inv s ->
  LoadModule urlStr s = (r, s') ->
  cache_inv s'
  /\ heap_preserved s s'
  /\ (forall l, r = Ok l ->
        exists m, modules s' !! urlStr = Some l /\ heap s' !! l = Some m
                  /\ URL m = urlStr /\ Type_ m = PackageType_ (ValidateURL urlStr)).
Proof.
  intros Hinv Hload.
  destruct (LoadModule_cases _ _ _ _ Hload)
    as [(Hv & -> & ->) | [(Hv & l & Hc & -> & ->) | (Hv & Hc & r1 & s1 & Hd & -> & ->)]].
  - split; [done|]. split; [by intros ? ?|]. discriminate.
  - split; [done|]. split; [by intros ? ?|].
    intros l' [= <-]. destruct (Hinv _ _ Hc) as (m & Hm & Hu & _ & Ht & _). eauto.
  - apply dispatch_spec in Hd as (Em & Hr & _).
    destruct r1 as [l|e].
    + destruct Hr as (-> & (content & Eh) & Hp).
      assert (Hnew : heap s1 !! length (heap s)
                     = Some {| URL := urlStr; Content := content;
                               Type_ := PackageType_ (ValidateURL urlStr) |}).
      { rewrite Eh. rewrite lookup_app_r by lia. by rewrite Nat.sub_diag. }
      split; [|split].
      * by apply (cache_inv_store s s1 _ Hinv Em Eh).
      * simpl. by eapply heap_preserved_app.
      * intros l [= <-]. simpl. rewrite lookup_insert_eq. eauto.
    + split; [|split; [|discriminate]].
      * eapply cache_inv_heap; [exact Em| |exact Hinv]. intros ? ?. by rewrite Hr.
      * intros ? ?. by rewrite Hr.
Qed.

(** C1. When a load of a specifier succeeds, loading the same specifier
    again returns the very same module, and the second call changes
    nothing: no resolver is entered, no input or output happens, and the
    heap, so the module's content, is as the first call left it. *)
Theorem LoadModule_cache_hit (urlStr : string) (s s' : State) (l : loc) :
  LoadModule urlStr s = (Ok l, s') ->
  LoadModule urlStr s' = (Ok l, s')
  /\ resolver_calls (snd (LoadModule urlStr s')) = resolver_calls s'
  /\ trace (snd (LoadModule urlStr s')) = trace s'
  /\ heap (snd (LoadModule urlStr s')) !! l = heap s' !! l.
Proof.
  intros Hload.
  assert (Hsecond : LoadModule urlStr s' = (Ok l, s')).
  { destruct (LoadModule_cases _ _ _ _ Hload)
      as [(Hv & ? & ->) | [(Hv & l' & Hc & ? & ->) | (Hv & Hc & r1 & s1 & Hd & <- & ->)]];
      simplify_eq.
    - by apply LoadModule_hit.
    - apply LoadModule_hit; [done|]. simpl. by rewrite lookup_insert_eq. }
  rewrite Hsecond. auto.
Qed.

(** C5. When a load fails, the content cache and the heap are as before
    the call. If the failure came from a resolver, the error returned is
    the resolver's own, the specifier has no cache entry, and the next
    load of the specifier enters the resolver again. *)
Theorem LoadModule_failure_not_cached (urlStr : string) (s s' : State) (e : Error) :
  LoadModule urlStr s = (Err e, s') ->
  modules s' = modules s
  /\ heap s' = heap s
  /\ (resolver_calls s' = S (resolver_calls s) ->
      dispatch (PackageType_ (ValidateURL urlStr)) urlStr s = (Err e, s')
      /\ modules s' !! urlStr = None
      /\ forall r2 s2, LoadModule urlStr s' = (r2, s2) ->
                       resolver_calls s2 = S (resolver_calls s')).
Proof.
  intros Hload.
  destruct (LoadModule_cases _ _ _ _ Hload)
    as [(Hv & ? & ->) | [(Hv & l' & Hc & ? & ->) | (Hv & Hc & r1 & s1 & Hd & <- & ->)]];
    simplify_eq.
  - split; [done|]. split; [done|]. lia.
  - pose proof Hd as Hd'. apply dispatch_spec in Hd' as (Em & Eh & Hcalls).
    split; [done|]. split; [done|]. intros Hran.
    split; [done|]. rewrite Em. split; [done|].
    intros r2 s2 H2.
    rewrite LoadModule_miss in H2 by (by rewrite ?Em).
    match type of H2 with
    | context [dispatch ?t ?u ?st] =>
        destruct (dispatch t u st) as [r3 s3] eqn:Hd3
    end.
    apply dispatch_spec in Hd3 as (_ & _ & Hcalls3).
    destruct (decide (PackageType_ (ValidateURL urlStr) = TypeUnknown)); [simpl in *; lia|].
    destruct r3; simplify_eq; exact Hcalls3.
Qed.

(** C8, as the code has it. A specifier that classifies as JSR never
    loads: from a state that satisfies the cache invariant, [LoadModule]
    returns an error, never a module. When the classifier accepts the
    specifier the error is [ErrJSRNotImplemented], whatever the package
    name, and the cache and the heap are left as they were. When the
    classifier rejects it, the error is the classifier's and nothing at
    all happens: [LoadModule] validates before it dispatches. *)
Theorem LoadModule_jsr_not_implemented (urlStr : string) (s : State) :
  cache_inv s ->
  PackageType_ (ValidateURL urlStr) = TypeJSR ->
  (exists e, fst (LoadModule urlStr s) = Err e)
  /\ (IsValid (ValidateURL urlStr) = true ->
      fst (LoadModule urlStr s) = Err errors.ErrJSRNotImplemented
      /\ modules (snd (LoadModule urlStr s)) = modules s
      /\ heap (snd (LoadModule urlStr s)) = heap s)
  /\ (IsValid (ValidateURL urlStr) = false ->
      LoadModule urlStr s = (Err (Error_ (ValidateURL urlStr)), s)).
Proof.
  intros Hinv Ht.
  destruct (IsValid (ValidateURL urlStr)) eqn:Hv.
  - assert (Hc : modules s !! urlStr = None).
    { destruct (modules s !! urlStr) as [l|] eqn:Hc; [|done].
      destruct (Hinv _ _ Hc) as (m & _ & _ & _ & Hm & Hp).
      rewrite Hm, Ht in Hp. destruct Hp as [?|[?|?]]; discriminate. }
    rewrite LoadModule_miss by done. rewrite Ht. simpl.
    unfold loadJSRModule, bind, emit, ret. simpl.
    split; [eauto|]. split; [done|discriminate].
  - unfold LoadModule. rewrite Hv. simpl. split; [eauto|]. split; [discriminate|done].
Qed.

End Cache.

(** ** Splitting package references *)

Lemma Split_no_sep (s : string) (c : ascii) :
  strings.Contains s c = false -> strings.Split s c = [s].
Proof.
  induction s as [|d s IH]; simpl; [done|].
  intros H. apply orb_false_iff in H as [Hd Hs].
  rewrite Hd, (IH Hs). done.
Qed.

Lemma Split_app_sep (a b : string) (c : ascii) :
  strings.Contains a c = false ->
  strings.Split (a +:+ String c b) c = a :: strings.Split b c.
Proof.
  induction a as [|d a IH]; simpl.
  - intros _. by rewrite Ascii.eqb_refl.
  - intros H. apply orb_false_iff in H as [Hd Ha].
    rewrite Hd, (IH Ha). done.
Qed.

Lemma Split_cons (s : string) (c : ascii) :
  exists p ps, strings.Split s c = p :: ps.
Proof.
  induction s as [|d s (p & ps & IH)]; simpl; [eauto|].
  destruct (Ascii.eqb d c); [eauto|]. rewrite IH. eauto.
Qed.

Lemma TrimPrefix_npm (rest : string) :
  strings.TrimPrefix ("npm:" +:+ rest) "npm:" = rest.
Proof. reflexivity. Qed.

(** C6. The text after [npm:] is split at [@]: with a version the name is
    the text before the [@] and the version the text after it, without
    one the whole text is the name and the version is ["latest"]. *)
Theorem npm_specifier_split (name version : string) :
  strings.Contains name "@" = false ->
  strings.Contains version "@" = false ->
  splitPackageName (strings.TrimPrefix ("npm:" +:+ name +:+ "@" +:+ version) "npm:")
  = (name, version)
  /\ splitPackageName (strings.TrimPrefix ("npm:" +:+ name) "npm:") = (name, "latest").
Proof.
  intros Hn Hv. rewrite !TrimPrefix_npm. unfold splitPackageName.
  change ("@" +:+ version) with (String "@" version).
  rewrite (Split_app_sep _ _ _ Hn), (Split_no_sep _ _ Hv), (Split_no_sep _ _ Hn).
  done.
Qed.

Lemma npm_specifier_split_witness :
  splitPackageName (strings.TrimPrefix "npm:left-pad@1.3.0" "npm:") = ("left-pad", "1.3.0")
  /\ splitPackageName (strings.TrimPrefix "npm:left-pad" "npm:") = ("left-pad", "latest").
Proof. apply (npm_specifier_split "left-pad" "1.3.0"); reflexivity. Defined.

Section Install.

Variable env : Env.

Lemma splitPackageName_scoped (scope rest : string) :
  strings.Contains scope "@" = false ->
  splitPackageName ("@" +:+ scope +:+ "@" +:+ rest) = ("", scope)
  /\ splitPackageName ("@" +:+ scope) = ("", scope).
Proof.
  intros Hs. unfold splitPackageName.
  change ("@" +:+ scope +:+ "@" +:+ rest) with (String "@" (scope +:+ String "@" rest)).
  change ("@" +:+ scope) with (String "@" scope).
  simpl strings.Split.
  rewrite (Split_app_sep _ _ _ Hs), (Split_no_sep _ _ Hs).
  destruct (Split_cons rest "@") as (p & ps & ->). done.
Qed.

(** C9. An argument of [InstallPackage] that begins with [@] is split
    into the empty name and, as the version, the text up to the next [@];
    what follows a second [@] plays no part. The cache path probed and the
    registry URL requested are the ones of the empty name. *)
Theorem InstallPackage_scoped_name
    (pm : NPMPackageManager) (scope rest : string) (s : State) :
  strings.Contains scope "@" = false ->
  splitPackageName ("@" +:+ scope +:+ "@" +:+ rest) = ("", scope)
  /\ splitPackageName ("@" +:+ scope) = ("", scope)
  /\ InstallPackage env pm ("@" +:+ scope +:+ "@" +:+ rest) s
     = InstallPackage env pm ("@" +:+ scope) s
  /\ registryURL "" scope = "https://registry.npmjs.org//" +:+ scope
  /\ (exists newer,
        trace (snd (InstallPackage env pm ("@" +:+ scope +:+ "@" +:+ rest) s))
        = newer ++ EvStat (cachePath pm "" scope) :: trace s)
  /\ (os.node (fs s) (cachePath pm "" scope) = None ->
      url_error env (registryURL "" scope) = None ->
      exists newer,
        trace (snd (InstallPackage env pm ("@" +:+ scope +:+ "@" +:+ rest) s))
        = newer ++ EvHTTPGet (registryURL "" scope)
                :: EvStat (cachePath pm "" scope) :: trace s).
Proof.
  intros Hs. destruct (splitPackageName_scoped scope rest Hs) as [E1 E2].
  split; [done|]. split; [done|].
  split; [unfold InstallPackage; by rewrite E1, E2|].
  split; [done|].
  unfold InstallPackage. rewrite E1.
  set (cp := cachePath pm "" scope). set (url := registryURL "" scope).
  unfold http.Get, http.NewRequest. unfold_os. unfold_monad. simpl.
  split.
  - repeat (case_match; simpl; simplify_eq);
      first [ by exists [] | by eexists [_] | by eexists [_; _] | by eexists [_; _; _] ].
  - intros Hnode Hurl. rewrite Hnode, Hurl. simpl.
    repeat (case_match; simpl; simplify_eq);
      first [ by exists [] | by eexists [_] | by eexists [_; _] ].
Qed.

(** *** The package cache on disk *)

Arguments os.node : simpl never.
Arguments os.key : simpl never.

Lemma node_insert_ne (f : gmap string Node) (p q : string) (n : Node) :
  os.key p <> os.key q -> os.node (<[os.key p := n]> f) q = os.node f q.
Proof. intros Hne. unfold os.node. by rewrite lookup_insert_ne. Qed.

Lemma node_insert_dir (f : gmap string Node) (p : string) :
  p <> "" -> os.node (<[os.key p := Dir]> f) p = Some Dir.
Proof.
  intros Hne. unfold os.node.
  destruct (String.eqb_spec p ""); [done|].
  destruct (os.fixed (os.key p)); [done|]. by rewrite lookup_insert_eq.
Qed.

Lemma node_same_key (f : gmap string Node) (p q : string) :
  p <> "" -> q <> "" -> os.key p = os.key q -> os.node f p = os.node f q.
Proof.
  intros Hp Hq Hk. unfold os.node. rewrite Hk.
  destruct (String.eqb_spec p ""); [done|]. by destruct (String.eqb_spec q "").
Qed.

Lemma node_Some_nonempty (f : gmap string Node) (p : string) (n : Node) :
  os.node f p = Some n -> p <> "".
Proof. intros H ->. discriminate. Qed.

(** Two paths of which one is a directory and the other is not have
    different keys. *)
Lemma key_differs (f : gmap string Node) (p q : string) :
  os.node f p = Some Dir -> q <> "" -> os.node f q <> Some Dir -> os.key q <> os.key p.
Proof.
  intros Hp Hq Hnot Hk. apply Hnot. rewrite <- Hp.
  apply node_same_key; [done| |done]. by eapply node_Some_nonempty.
Qed.

Lemma mkdir_fold_err (l : list string) (e : string) :
  fold_left os.mkdir_step l (Err e) = Err e.
Proof. induction l; simpl; auto. Qed.

Lemma mkdir_fold_last (l : list string) (p : string) (f f' : gmap string Node) :
  p <> "" ->
  fold_left os.mkdir_step (l ++ [p]) (Ok f) = Ok f' ->
  os.node f' p = Some Dir.
Proof.
  intros Hne. rewrite fold_left_app. simpl.
  destruct (fold_left os.mkdir_step l (Ok f)) as [f1|e]; simpl; [|discriminate].
  destruct (String.eqb_spec p ""); [done|].
  destruct (os.node f1 p) as [[c|]|] eqn:Hn; intros; simplify_eq; [done|].
  by apply node_insert_dir.
Qed.

Lemma MkdirAll_ok (path : string) (s s' : State) :
  os.MkdirAll path s = (Ok tt, s') ->
  os.node (fs s') path = Some Dir
  /\ trace s' = EvMkdirAll path :: trace s.
Proof.
  unfold os.MkdirAll. unfold_monad. simpl.
  destruct (os.node (fs s) path) as [[c|]|] eqn:Hn; intros H; simplify_eq; [done|].
  destruct (String.eqb_spec path ""); [discriminate|].
  destruct (fold_left _ _ _) as [f'|e] eqn:Hf; simplify_eq.
  split; [|done]. simpl. by eapply mkdir_fold_last.
Qed.

Lemma WriteFile_ok (name data : string) (s s' : State) :
  os.WriteFile name data s = (Ok tt, s') ->
  os.node (fs s) name <> Some Dir
  /\ fs s' = <[os.key name := File data]> (fs s)
  /\ trace s' = EvWriteFile name data :: trace s.
Proof.
  unfold os.WriteFile. unfold_monad. simpl.
  intros H. repeat (case_match; simplify_eq); simpl; auto.
Qed.

Lemma WriteFile_nonempty (name data : string) (s s' : State) :
  os.WriteFile name data s = (Ok tt, s') -> name <> "".
Proof. intros H ->. revert H. unfold os.WriteFile. unfold_monad. simpl. discriminate. Qed.

Lemma Stat_eq (name : string) (s : State) :
  os.Stat name s
  = (match os.node (fs s) name with
     | Some _ => Ok tt
     | None => Err ("stat " +:+ name +:+ ": no such file or directory")
     end, set_trace (EvStat name :: trace s) s).
Proof. unfold os.Stat. unfold_monad. simpl. by destruct (os.node _ _). Qed.

(** A path that [os.Stat] finds is answered from the package cache: no
    request, no write, the disk untouched. *)
Lemma InstallPackage_hit (pm : NPMPackageManager) (packageName name version : string)
    (s : State) :
  splitPackageName packageName = (name, version) ->
  is_Some (os.node (fs s) (cachePath pm name version)) ->
  InstallPackage env pm packageName s
  = (Ok (cachePath pm name version),
     set_trace (EvStat (cachePath pm name version) :: trace s) s).
Proof.
  intros Hsplit [n Hn]. unfold InstallPackage. rewrite Hsplit.
  unfold bind at 1. rewrite Stat_eq, Hn. done.
Qed.

(** A successful install leaves its cache path on the disk and sends at
    most one request. *)
Lemma InstallPackage_ok (pm : NPMPackageManager) (packageName name version path : string)
    (s s1 : State) :
  splitPackageName packageName = (name, version) ->
  InstallPackage env pm packageName s = (Ok path, s1) ->
  path = cachePath pm name version
  /\ is_Some (os.node (fs s1) path)
  /\ requests s1 <= S (requests s).
Proof.
  intros Hsplit. unfold InstallPackage. rewrite Hsplit.
  set (cp := cachePath pm name version).
  unfold bind at 1. rewrite Stat_eq.
  destruct (os.node (fs s) cp) as [n|] eqn:Hn.
  { unfold ret. intros; simplify_eq. simpl. rewrite Hn.
    unfold requests. simpl. rewrite count_events_cons. simpl. eauto with lia. }
  unfold bind at 1.
  destruct (http.Get env _ _) as [got s2] eqn:Hget.
  assert (Hreq : requests s2 <= S (requests s) /\ fs s2 = fs s).
  { revert Hget. unfold http.Get, http.Do, requests. unfold_monad.
    intros. crunch; rewrite ?count_events_cons; simpl; auto with lia. }
  destruct got as [resp|e]; [|unfold ret; intros; simplify_eq].
  destruct (negb _); [unfold ret; intros; simplify_eq|].
  unfold bind at 1.
  destruct (os.MkdirAll cp s2) as [[[]|e] s3] eqn:Hmk; [|unfold ret; intros; simplify_eq].
  apply MkdirAll_ok in Hmk as [Hdir Htr3].
  unfold bind at 1.
  destruct (os.WriteFile _ _ s3) as [[[]|e] s4] eqn:Hwr; [|unfold ret; intros; simplify_eq].
  pose proof (WriteFile_nonempty _ _ _ _ Hwr) as Hne.
  apply WriteFile_ok in Hwr as (Hnot & Hfs & Htr4).
  unfold ret. intros; simplify_eq. split; [done|].
  split.
  - rewrite Hfs, node_insert_ne; [by rewrite Hdir|].
    by eapply key_differs.
  - unfold requests in *. rewrite Htr4, Htr3, !count_events_cons. simpl. lia.
Qed.

(** C7. When the directory [cacheRoot/name/version] exists,
    [InstallPackage] returns its path after the one [os.Stat], without a
    registry request or a disk write. Hence after a successful install a
    second install of the same reference returns the same path, sends no
    request and writes nothing: the two calls together contact the
    registry at most once. *)
Theorem InstallPackage_cached (pm : NPMPackageManager) (packageName name version : string)
    (s : State) :
  splitPackageName packageName = (name, version) ->
  (os.node (fs s) (cachePath pm name version) = Some Dir ->
   InstallPackage env pm packageName s
   = (Ok (cachePath pm name version),
      set_trace (EvStat (cachePath pm name version) :: trace s) s)
   /\ requests (snd (InstallPackage env pm packageName s)) = requests s
   /\ disk_writes (snd (InstallPackage env pm packageName s)) = disk_writes s
   /\ fs (snd (InstallPackage env pm packageName s)) = fs s)
  /\ (forall path s1,
        InstallPackage env pm packageName s = (Ok path, s1) ->
        fst (InstallPackage env pm packageName s1) = Ok path
        /\ requests (snd (InstallPackage env pm packageName s1)) = requests s1
        /\ disk_writes (snd (InstallPackage env pm packageName s1)) = disk_writes s1
        /\ fs (snd (InstallPackage env pm packageName s1)) = fs s1
        /\ requests (snd (InstallPackage env pm packageName s1)) <= S (requests s)).
Proof.
  intros Hsplit. split.
  - intros Hdir. rewrite (InstallPackage_hit _ _ _ _ _ Hsplit) by (by rewrite Hdir).
    unfold requests, disk_writes. simpl. rewrite !count_events_cons. done.
  - intros path s1 Hfirst.
    destruct (InstallPackage_ok _ _ _ _ _ _ _ Hsplit Hfirst) as (-> & Hsome & Hreq).
    rewrite (InstallPackage_hit _ _ _ _ _ Hsplit Hsome).
    unfold requests, disk_writes in *. simpl. rewrite !count_events_cons. simpl.
    auto with lia.
Qed.

End Install.

Lemma InstallPackage_scoped_name_witness :
  splitPackageName "@scope/name@1.0.0" = ("", "scope/name")
  /\ registryURL "" "scope/name" = "https://registry.npmjs.org//scope/name"
  /\ cachePath {| cacheDir := "/home/u/.edon/npm-cache" |} "" "scope/name"
     = "/home/u/.edon/npm-cache/scope/name".
Proof.
  destruct (InstallPackage_scoped_name env404 {| cacheDir := "/home/u/.edon/npm-cache" |}
              "scope/name" "1.0.0" (fresh ∅) eq_refl) as (H1 & _ & _ & H2 & _).
  split; [exact H1|]. split; [exact H2|]. reflexivity.
Defined.


(** ** Concurrent loads of one specifier *)

Section Concurrency.

Variable env : Env.
Variable ValidateURL : string -> ValidationResult.
Variable ErrorText : Error -> string.

Local Abbreviation LoadModule := (LoadModule env ValidateURL ErrorText).
Local Abbreviation dispatch := (dispatch env ErrorText).
Local Abbreviation call_step := (call_step env ValidateURL ErrorText).
Local Abbreviation sched_step := (sched_step env ValidateURL ErrorText).
Local Abbreviation run_schedule := (run_schedule env ValidateURL ErrorText).

(** A goroutine scheduled alone runs [LoadModule]. *)
Lemma LoadModule_as_steps (urlStr : string) (s : State) :
  let '(pc1, s1) := call_step urlStr Entered s in
  let '(pc2, s2) := call_step urlStr pc1 s1 in
  let '(pc3, s3) := call_step urlStr pc2 s2 in
  (pc3, s3) = (Returned (fst (LoadModule urlStr s)), snd (LoadModule urlStr s)).
Proof.
  destruct (IsValid (ValidateURL urlStr)) eqn:Hv.
  - destruct (modules s !! urlStr) as [l|] eqn:Hc.
    + rewrite (LoadModule_hit _ _ _ _ _ _ Hv Hc). simpl. rewrite Hv. simpl.
      unfold bind, getFromCache, ret. by rewrite Hc.
    + rewrite (LoadModule_miss _ _ _ _ _ Hv Hc). simpl. rewrite Hv. simpl.
      unfold bind at 1. unfold getFromCache. rewrite Hc. simpl.
      unfold bind at 1.
      destruct (dispatch _ _ _) as [[l|e] s1]; simpl; done.
  - unfold LoadModule. simpl. rewrite Hv. done.
Qed.

Lemma call_step_cases (urlStr : string) (pc pc' : Pc) (s s' : State) :
  call_step urlStr pc s = (pc', s') ->
  match pc with
  | Entered =>
      s' = s
      /\ ((IsValid (ValidateURL urlStr) = false /\ returned pc')
          \/ (IsValid (ValidateURL urlStr) = true
              /\ exists l, modules s !! urlStr = Some l /\ pc' = Returned (Ok l))
          \/ (IsValid (ValidateURL urlStr) = true
              /\ modules s !! urlStr = None /\ pc' = Missed))
  | Missed =>
      modules s' = modules s
      /\ past_resolver pc'
      /\ resolver_calls s'
         = (if decide (PackageType_ (ValidateURL urlStr) = TypeUnknown) then 0 else 1)
           + resolver_calls s
  | Loaded l =>
      s' = set_modules (<[urlStr := l]> (modules s)) s /\ pc' = Returned (Ok l)
  | Returned r => s' = s /\ pc' = pc
  end.
Proof.
  destruct pc as [| |l|r]; simpl.
  - destruct (IsValid (ValidateURL urlStr)); simpl.
    + unfold bind, getFromCache, ret.
      destruct (modules s !! urlStr) as [l|]; intros; simplify_eq; eauto 10.
    + unfold ret. intros; simplify_eq. simpl. auto.
  - unfold bind at 1.
    destruct (dispatch _ _ _) as [r1 s1] eqn:Hd.
    apply dispatch_spec in Hd as (Em & _ & Hcalls).
    destruct r1; unfold ret; intros; simplify_eq; simpl; auto.
  - unfold bind, putInCache, ret. intros; simplify_eq. auto.
  - unfold ret. intros; simplify_eq. auto.
Qed.

Lemma run_schedule_snoc (urlStr : string) (sched : list bool) (pick : bool) (c : Config) :
  run_schedule urlStr (sched ++ [pick]) c
  = sched_step urlStr (run_schedule urlStr sched c) pick.
Proof. unfold run_schedule. by rewrite fold_left_app. Qed.

(** Each goroutine enters its resolver at most once. *)
Lemma run_schedule_upper (urlStr : string) (sched : list bool) (s : State) :
  let c := run_schedule urlStr sched (start s) in
  resolver_calls (shared c)
  <= resolver_calls s + resolved_at_most (first c) + resolved_at_most (second c).
Proof.
  induction sched as [|pick sched IH] using rev_ind; simpl; [lia|].
  rewrite run_schedule_snoc. simpl in IH.
  destruct (run_schedule urlStr sched (start s)) as [p1 p2 sh]. simpl in *.
  unfold sched_step. destruct pick; simpl.
  - destruct (call_step urlStr p1 sh) as [pc' s'] eqn:Hstep. simpl.
    apply call_step_cases in Hstep.
    destruct p1; simpl in *; destruct_and?; simplify_eq; simpl; try lia.
    + destruct pc'; try done; simpl; case_decide; lia.
    + unfold resolver_calls in *; simpl in *; lia.
  - destruct (call_step urlStr p2 sh) as [pc' s'] eqn:Hstep. simpl.
    apply call_step_cases in Hstep.
    destruct p2; simpl in *; destruct_and?; simplify_eq; simpl; try lia.
    + destruct pc'; try done; simpl; case_decide; lia.
    + unfold resolver_calls in *; simpl in *; lia.
Qed.

(** Once the cache has been checked with a miss, or the resolver is behind
    a goroutine, a resolver has been entered. *)
Lemma run_schedule_lower (urlStr : string) (sched : list bool) (s : State) :
  IsValid (ValidateURL urlStr) = true ->
  PackageType_ (ValidateURL urlStr) <> TypeUnknown ->
  modules s !! urlStr = None ->
  let c := run_schedule urlStr sched (start s) in
  resolver_calls s <= resolver_calls (shared c)
  /\ (is_Some (modules (shared c) !! urlStr) -> resolver_calls s + 1 <= resolver_calls (shared c))
  /\ (past_resolver (first c) -> resolver_calls s + 1 <= resolver_calls (shared c))
  /\ (past_resolver (second c) -> resolver_calls s + 1 <= resolver_calls (shared c)).
Proof.
  intros Hv Ht Hc.
  induction sched as [|pick sched IH] using rev_ind; simpl.
  { rewrite Hc. split; [lia|]. split; [by intros [? ?]|]. done. }
  rewrite run_schedule_snoc. simpl in IH.
  destruct (run_schedule urlStr sched (start s)) as [p1 p2 sh]. simpl in *.
  destruct IH as (Hmono & Hcache & H1 & H2).
  unfold sched_step. destruct pick; simpl.
  - destruct (call_step urlStr p1 sh) as [pc' s'] eqn:Hstep. simpl.
    apply call_step_cases in Hstep.
    destruct p1; simpl in *.
    + destruct Hstep as (-> & [(? & _) | [(_ & l & Hl & ->) | (_ & _ & ->)]]);
        [congruence| |]; simpl; repeat split; auto;
        try (intros _; apply Hcache; by rewrite Hl).
    + destruct Hstep as (Em & Hp & Hcalls). rewrite Em.
      case_decide; [done|]. repeat split; intros; lia.
    + destruct Hstep as (-> & ->). unfold resolver_calls in *. simpl in *.
      repeat split; auto.
    + destruct Hstep as (-> & ->). simpl. auto.
  - destruct (call_step urlStr p2 sh) as [pc' s'] eqn:Hstep. simpl.
    apply call_step_cases in Hstep.
    destruct p2; simpl in *.
    + destruct Hstep as (-> & [(? & _) | [(_ & l & Hl & ->) | (_ & _ & ->)]]);
        [congruence| |]; simpl; repeat split; auto;
        try (intros _; apply Hcache; by rewrite Hl).
    + destruct Hstep as (Em & Hp & Hcalls). rewrite Em.
      case_decide; [done|]. repeat split; intros; lia.
    + destruct Hstep as (-> & ->). unfold resolver_calls in *. simpl in *.
      repeat split; auto.
    + destruct Hstep as (-> & ->). simpl. auto.
Qed.

(** When the first call has returned a module, the second call is
    answered from the cache whatever the schedule. *)
Lemma run_schedule_after_store (urlStr : string) (l : loc) (s1 : State) (rest : list bool) :
  IsValid (ValidateURL urlStr) = true ->
  modules s1 !! urlStr = Some l ->
  forall pc2, pc2 = Entered \/ pc2 = Returned (Ok l) ->
  let c := run_schedule urlStr rest
             {| first := Returned (Ok l); second := pc2; shared := s1 |} in
  shared c = s1 /\ first c = Returned (Ok l)
  /\ (second c = Entered \/ second c = Returned (Ok l)).
Proof.
  intros Hv Hc. induction rest as [|pick rest IH]; intros pc2 Hpc2; simpl; [auto|].
  destruct pick; simpl.
  - apply IH. done.
  - destruct Hpc2 as [-> | ->]; simpl.
    + rewrite Hv. simpl. unfold bind, getFromCache, ret. rewrite Hc. simpl.
      apply IH. auto.
    + apply IH. auto.
Qed.

Lemma run_schedule_first_alone (urlStr : string) (s : State) (rest : list bool) :
  run_schedule urlStr ([true; true; true] ++ rest) (start s)
  = run_schedule urlStr rest
      {| first := Returned (fst (LoadModule urlStr s)); second := Entered;
         shared := snd (LoadModule urlStr s) |}.
Proof.
  pose proof (LoadModule_as_steps urlStr s) as H.
  unfold run_schedule. rewrite fold_left_app. f_equal.
  cbn [fold_left]. unfold sched_step, start. cbn [first second shared].
  destruct (call_step urlStr Entered s) as [pc1 s1]. cbn [first second shared].
  destruct (call_step urlStr pc1 s1) as [pc2 s2]. cbn [first second shared].
  destruct (call_step urlStr pc2 s2) as [pc3 s3]. cbn [first second shared].
  by simplify_eq.
Qed.

(** C2, as the code has it. Two goroutines load the same valid, not yet
    cached specifier of a known scheme. Whatever the schedule, the
    resolver is entered at most twice, and at least once as soon as one
    call has returned. When the first call returns its module before the
    second call starts, the resolver is entered exactly once and the
    second call returns the first call's module. *)
Theorem concurrent_loads_resolver_bounds (urlStr : string) (sched : list bool) (s : State) :
  IsValid (ValidateURL urlStr) = true ->
  PackageType_ (ValidateURL urlStr) <> TypeUnknown ->
  modules s !! urlStr = None ->
  let c := run_schedule urlStr sched (start s) in
  resolver_calls (shared c) <= resolver_calls s + 2
  /\ (returned (first c) \/ returned (second c) ->
      resolver_calls s + 1 <= resolver_calls (shared c))
  /\ (forall l s1 rest,
        LoadModule urlStr s = (Ok l, s1) ->
        sched = [true; true; true] ++ rest ->
        resolver_calls (shared c) = resolver_calls s + 1
        /\ first c = Returned (Ok l)
        /\ (returned (second c) -> second c = Returned (Ok l))).
Proof.
  intros Hv Ht Hc c. split; [|split].
  - pose proof (run_schedule_upper urlStr sched s) as H. simpl in H. fold c in H.
    assert (resolved_at_most (first c) <= 1) by (destruct (first c); simpl; lia).
    assert (resolved_at_most (second c) <= 1) by (destruct (second c); simpl; lia).
    lia.
  - destruct (run_schedule_lower urlStr sched s Hv Ht Hc) as (_ & _ & H1 & H2).
    fold c in H1, H2.
    intros [Hr | Hr]; [apply H1 | apply H2]; by destruct (first c), (second c).
  - intros l s1 rest Hload ->. subst c.
    rewrite run_schedule_first_alone, Hload. simpl fst. simpl snd.
    assert (Hs1 : modules s1 !! urlStr = Some l /\ resolver_calls s1 = resolver_calls s + 1).
    { rewrite (LoadModule_miss _ _ _ _ _ Hv Hc) in Hload.
      destruct (dispatch _ _ _) as [[l'|e] s2] eqn:Hd; simplify_eq.
      apply dispatch_spec in Hd as (_ & _ & Hcalls).
      case_decide; [done|]. simpl. rewrite lookup_insert_eq.
      unfold resolver_calls in *. simpl. split; [done|lia]. }
    destruct Hs1 as [Hs1 Hcalls].
    destruct (run_schedule_after_store urlStr l s1 rest Hv Hs1 Entered (or_introl eq_refl))
      as (-> & -> & Hsec).
    split; [done|]. split; [done|].
    destruct Hsec as [-> | ->]; simpl; done.
Qed.

End Concurrency.

(** ** Errors as the caller sees them *)

Section Surfacing.

Variable env : Env.
Variable ValidateURL : string -> ValidationResult.
Variable ErrorText : Error -> string.

Local Abbreviation LoadModule := (LoadModule env ValidateURL ErrorText).
Local Abbreviation dispatch := (dispatch env ErrorText).

(** The CDN resolver never looks at the status code: whatever the status,
    a body that can be read becomes the module's content. *)
Lemma loadCDNModule_any_status (url : string) (s : State) (resp : Response) (content : string) :
  url_error env url = None ->
  net env (EvResolve TypeCDN url :: trace s) url = Ok resp ->
  Body resp = Ok content ->
  loadCDNModule env url s
  = (Ok (length (heap s)),
     {| heap := heap s ++ [{| URL := url; Content := content; Type_ := TypeCDN |}];
        modules := modules s; fs := fs s;
        trace := EvHTTPGet url :: EvResolve TypeCDN url :: trace s |}).
Proof.
  intros Hurl Hnet Hbody.
  unfold loadCDNModule, http.NewRequest, http.Do. unfold_monad. simpl.
  rewrite Hurl. simpl. rewrite Hnet, Hbody. done.
Qed.

(** C4, as the code has it. When the registry answers the metadata request
    of an [npm:] specifier with a status other than 200, [InstallPackage]
    fails with [ErrPackageNotFound]; the NPM resolver wraps that failure
    as [ErrPackageInstall], with the text of the package manager's error
    as its cause; and [LoadModule] returns the resolver's error as it is.
    The kind the caller sees is [PackageInstall]. *)
Theorem npm_not_found_surfaces_as_install_failure
    (urlStr name version : string) (s s1 s2 : State)
    (pm : NPMPackageManager) (resp : Response) :
  IsValid (ValidateURL urlStr) = true ->
  PackageType_ (ValidateURL urlStr) = TypeNPM ->
  modules s !! urlStr = None ->
  splitPackageName (strings.TrimPrefix urlStr "npm:") = (name, version) ->
  NewNPMPackageManager env (set_trace (EvResolve TypeNPM urlStr :: trace s) s) = (Ok pm, s1) ->
  os.node (fs s1) (cachePath pm name version) = None ->
  http.Get env (registryURL name version)
    (set_trace (EvStat (cachePath pm name version) :: trace s1) s1) = (Ok resp, s2) ->
  StatusCode resp <> http.StatusOK ->
  InstallPackage env pm (strings.TrimPrefix urlStr "npm:") s1
  = (Err errors.ErrPackageNotFound, s2)
  /\ LoadModule urlStr s
     = (Err (errors.Wrap errors.ErrPackageInstall (ErrorText errors.ErrPackageNotFound)), s2)
  /\ LoadModule urlStr s = dispatch TypeNPM urlStr s
  /\ kind (errors.Wrap errors.ErrPackageInstall (ErrorText errors.ErrPackageNotFound))
     = errors.PackageInstall.
Proof.
  intros Hv Ht Hc Hsplit Hpm Hnode Hget Hcode.
  assert (Hinst : InstallPackage env pm (strings.TrimPrefix urlStr "npm:") s1
                  = (Err errors.ErrPackageNotFound, s2)).
  { unfold InstallPackage. rewrite Hsplit.
    unfold bind at 1. rewrite Stat_eq, Hnode.
    unfold bind at 1. rewrite Hget.
    destruct (Z.eqb_spec (StatusCode resp) http.StatusOK); [done|]. done. }
  assert (Hres : dispatch TypeNPM urlStr s
                 = (Err (errors.Wrap errors.ErrPackageInstall
                           (ErrorText errors.ErrPackageNotFound)), s2)).
  { simpl. unfold loadNPMModule. unfold bind at 1. unfold emit.
    unfold bind at 1. rewrite Hpm.
    unfold bind at 1. rewrite Hinst. done. }
  split; [done|].
  rewrite (LoadModule_miss _ _ _ _ _ Hv Hc), Ht, Hres. done.
Qed.

End Surfacing.

(** ** The loader at work *)

Local Abbreviation load404 := (LoadModule env404 SpecValidateURL SpecErrorText).
Local Abbreviation load200 := (LoadModule env200 SpecValidateURL SpecErrorText).

(** C3. Against a server that answers [404 Not Found], loading a CDN
    specifier succeeds: the loader returns and caches a module whose
    content is the body of the error response. *)
Theorem cdn_404_body_becomes_module :
  net env404 [EvResolve TypeCDN "https://cdn.example.com/mod.js"]
      "https://cdn.example.com/mod.js"
  = Ok {| StatusCode := 404; Body := Ok "404 page not found" |}
  /\ fst (load404 "https://cdn.example.com/mod.js" (fresh ∅)) = Ok 0
  /\ heap (snd (load404 "https://cdn.example.com/mod.js" (fresh ∅)))
     = [{| URL := "https://cdn.example.com/mod.js";
           Content := "404 page not found";
           Type_ := TypeCDN |}]
  /\ modules (snd (load404 "https://cdn.example.com/mod.js" (fresh ∅)))
       !! "https://cdn.example.com/mod.js" = Some 0.
Proof. vm_compute. auto. Qed.

(** C4, refuted as stated: the registry answers 404 to the metadata
    request for [npm:left-pad], and the error the caller of [LoadModule]
    gets is of kind [PackageInstall], not [PackageNotFound]. *)
Lemma npm_404_kind_is_not_package_not_found :
  fst (load404 "npm:left-pad" (fresh ∅))
  = Err {| kind := errors.PackageInstall; cause := Some "package not found" |}
  /\ trace (snd (load404 "npm:left-pad" (fresh ∅)))
     = [EvHTTPGet "https://registry.npmjs.org/left-pad/latest";
        EvStat "/home/u/.edon/npm-cache/left-pad/latest";
        EvMkdirAll "/home/u/.edon/npm-cache";
        EvResolve TypeNPM "npm:left-pad"]
  /\ net env404 [EvStat "/home/u/.edon/npm-cache/left-pad/latest";
                 EvMkdirAll "/home/u/.edon/npm-cache";
                 EvResolve TypeNPM "npm:left-pad"]
         "https://registry.npmjs.org/left-pad/latest"
     = Ok {| StatusCode := 404; Body := Ok "404 page not found" |}
  /\ errors.PackageInstall <> errors.PackageNotFound.
Proof. vm_compute. repeat split; discriminate. Qed.

(** C2, refuted as stated: two goroutines load the same CDN specifier and
    the scheduler alternates between them. Both miss the cache before
    either has stored its module, so the resolver is entered twice and two
    requests are sent; the two callers even hold different modules. *)
Lemma concurrent_loads_resolve_twice :
  let c := run_schedule env200 SpecValidateURL SpecErrorText
             "https://cdn.example.com/mod.js"
             [true; false; true; false; true; false] (start (fresh ∅)) in
  first c = Returned (Ok 0)
  /\ second c = Returned (Ok 1)
  /\ resolver_calls (shared c) = 2
  /\ requests (shared c) = 2
  /\ resolver_calls (shared c) <> 1.
Proof. vm_compute. repeat split; discriminate. Qed.

Lemma concurrent_loads_resolver_bounds_witness :
  let c := run_schedule env200 SpecValidateURL SpecErrorText
             "https://cdn.example.com/mod.js"
             [true; true; true; false] (start (fresh ∅)) in
  resolver_calls (shared c) <= 2
  /\ resolver_calls (shared c) = 1
  /\ second c = Returned (Ok 0).
Proof.
  destruct (concurrent_loads_resolver_bounds env200 SpecValidateURL SpecErrorText
              "https://cdn.example.com/mod.js" [true; true; true; false] (fresh ∅))
    as (Hupper & _ & Hseq).
  - reflexivity.
  - discriminate.
  - reflexivity.
  - split; [exact Hupper|].
    destruct (Hseq 0 (snd (load200 "https://cdn.example.com/mod.js" (fresh ∅))) [false])
      as (Hone & _ & Hsecond).
    + vm_compute. reflexivity.
    + reflexivity.
    + split; [exact Hone|]. apply Hsecond. vm_compute. exact I.
Defined.

Lemma fresh_cache_inv (f : gmap string Node) : cache_inv SpecValidateURL (fresh f).
Proof. intros k l H. simpl in H. rewrite lookup_empty in H. discriminate. Qed.

Lemma LoadModule_preserves_cache_inv_witness :
  let s1 := snd (load200 "./foo.js" (fresh disk0)) in
  let s2 := snd (load200 "npm:left-pad@1.3.0" s1) in
  cache_inv SpecValidateURL s2
  /\ heap_preserved s1 s2
  /\ modules s2 !! "npm:left-pad@1.3.0" = Some 1.
Proof.
  intros s1 s2.
  destruct (LoadModule_preserves_cache_inv env200 SpecValidateURL SpecErrorText
              "./foo.js" (fresh disk0) s1 (Ok 0)) as (Hinv1 & _).
  - apply fresh_cache_inv.
  - vm_compute. reflexivity.
  - destruct (LoadModule_preserves_cache_inv env200 SpecValidateURL SpecErrorText
                "npm:left-pad@1.3.0" s1 s2 (Ok 1) Hinv1) as (Hinv2 & Hheap & Hret).
    + vm_compute. reflexivity.
    + split; [exact Hinv2|]. split; [exact Hheap|].
      destruct (Hret 1 eq_refl) as (m & Hm & _). exact Hm.
Defined.

Lemma LoadModule_cache_hit_witness :
  let s1 := snd (load200 "./foo.js" (fresh disk0)) in
  load200 "./foo.js" s1 = (Ok 0, s1)
  /\ resolver_calls (snd (load200 "./foo.js" s1)) = resolver_calls s1.
Proof.
  intros s1.
  destruct (LoadModule_cache_hit env200 SpecValidateURL SpecErrorText
              "./foo.js" (fresh disk0) s1 0) as (Hsame & Hcalls & _).
  - vm_compute. reflexivity.
  - split; [exact Hsame | exact Hcalls].
Defined.

Lemma LoadModule_failure_not_cached_witness :
  let s1 := snd (load200 "bar.js" (fresh disk0)) in
  modules s1 = ∅
  /\ heap s1 = []
  /\ resolver_calls (snd (load200 "bar.js" s1)) = 2.
Proof.
  intros s1.
  destruct (LoadModule_failure_not_cached env200 SpecValidateURL SpecErrorText
              "bar.js" (fresh disk0) s1
              (errors.Wrap errors.ErrFileRead "open /work/bar.js: no such file or directory"))
    as (Hm & Hh & Hretry).
  - vm_compute. reflexivity.
  - split; [exact Hm|]. split; [exact Hh|].
    destruct Hretry as (_ & _ & Hagain); [vm_compute; reflexivity|].
    rewrite (Hagain (fst (load200 "bar.js" s1)) (snd (load200 "bar.js" s1)));
      [vm_compute; reflexivity | by destruct (load200 "bar.js" s1)].
Defined.

Lemma LoadModule_jsr_not_implemented_witness :
  fst (load200 "jsr:@std/fs" (fresh disk0)) = Err errors.ErrJSRNotImplemented.
Proof.
  destruct (LoadModule_jsr_not_implemented env200 SpecValidateURL SpecErrorText
              "jsr:@std/fs" (fresh disk0)) as (_ & Hvalid & _).
  - apply fresh_cache_inv.
  - reflexivity.
  - destruct (Hvalid eq_refl) as (He & _). exact He.
Defined.

(** C8, refuted as stated: the specifier [jsr:] classifies as JSR, but
    with its empty package name the classifier rejects it, and the error
    of [LoadModule] is the classifier's [InvalidSpecifier], not
    [ErrJSRNotImplemented]; no resolver is entered. *)
Lemma jsr_without_name_is_invalid_specifier :
  strings.HasPrefix "jsr:" "jsr:" = true
  /\ PackageType_ (SpecValidateURL "jsr:") = TypeJSR
  /\ load200 "jsr:" (fresh disk0)
     = (Err {| kind := errors.InvalidSpecifier; cause := Some "empty package name" |},
        fresh disk0)
  /\ fst (load200 "jsr:" (fresh disk0)) <> Err errors.ErrJSRNotImplemented.
Proof. vm_compute. repeat split; discriminate. Qed.

(** A disk on which [left-pad@1.3.0] is already installed. *)
Lemma InstallPackage_cached_witness :
  let pm := {| cacheDir := "/home/u/.edon/npm-cache" |} in
  let installed := <["/home/u/.edon/npm-cache/left-pad/1.3.0" := Dir]> ∅ in
  let s1 := snd (InstallPackage env200 pm "left-pad@1.3.0" (fresh ∅)) in
  (fst (InstallPackage env200 pm "left-pad@1.3.0" (fresh installed))
   = Ok "/home/u/.edon/npm-cache/left-pad/1.3.0"
   /\ requests (snd (InstallPackage env200 pm "left-pad@1.3.0" (fresh installed))) = 0)
  /\ fst (InstallPackage env200 pm "left-pad@1.3.0" s1)
     = Ok "/home/u/.edon/npm-cache/left-pad/1.3.0"
  /\ requests (snd (InstallPackage env200 pm "left-pad@1.3.0" s1)) <= 1.
Proof.
  intros pm installed s1.
  destruct (InstallPackage_cached env200 pm "left-pad@1.3.0" "left-pad" "1.3.0"
              (fresh installed) eq_refl) as (Hhit & _).
  destruct (InstallPackage_cached env200 pm "left-pad@1.3.0" "left-pad" "1.3.0"
              (fresh ∅) eq_refl) as (_ & Htwice).
  split.
  - destruct Hhit as (Hret & Hreq & _); [vm_compute; reflexivity|].
    split; [by rewrite Hret | exact Hreq].
  - destruct (Htwice "/home/u/.edon/npm-cache/left-pad/1.3.0" s1)
      as (Hret & _ & _ & _ & Hreq); [vm_compute; reflexivity|].
    split; [exact Hret | exact Hreq].
Defined.

Lemma npm_not_found_surfaces_as_install_failure_witness :
  load404 "npm:left-pad" (fresh ∅)
  = (Err (errors.Wrap errors.ErrPackageInstall "package not found"),
     snd (load404 "npm:left-pad" (fresh ∅))).
Proof.
  pose (pm := {| cacheDir := "/home/u/.edon/npm-cache" |}).
  pose (s1 := snd (NewNPMPackageManager env404
                     (set_trace [EvResolve TypeNPM "npm:left-pad"] (fresh ∅)))).
  destruct (npm_not_found_surfaces_as_install_failure env404 SpecValidateURL SpecErrorText
              "npm:left-pad" "left-pad" "latest" (fresh ∅) s1
              (snd (load404 "npm:left-pad" (fresh ∅))) pm
              {| StatusCode := 404; Body := Ok "404 page not found" |})
    as (_ & Hload & _).
  - reflexivity.
  - reflexivity.
  - reflexivity.
  - reflexivity.
  - vm_compute. reflexivity.
  - vm_compute. reflexivity.
  - vm_compute. reflexivity.
  - discriminate.
  - exact Hload.
Defined.

(** * Further properties of the loader *)

Section LoaderMore.

Variable env : Env.
Variable ValidateURL : string -> ValidationResult.
Variable ErrorText : Error -> string.

Local Abbreviation LoadModule := (LoadModule env ValidateURL ErrorText).
Local Abbreviation dispatch := (dispatch env ErrorText).

Lemma NewNPMPackageManager_requests s :
  requests (snd (NewNPMPackageManager env s)) = requests s.
Proof.
  unfold NewNPMPackageManager, requests. unfold_os. unfold_monad.
  crunch; rewrite ?count_events_cons; auto.
Qed.

Lemma InstallPackage_requests pm p s :
  requests (snd (InstallPackage env pm p s)) <= S (requests s).
Proof.
  unfold InstallPackage, requests. unfold_os. unfold_monad.
  crunch; rewrite ?count_events_cons; simpl; lia.
Qed.

Lemma InstallPackage_error_cases pm p s e s' :
  InstallPackage env pm p s = (Err e, s') ->
  ((kind e = errors.PackageFetch \/ e = errors.ErrPackageNotFound)
   /\ fs s' = fs s /\ disk_writes s' = disk_writes s)
  \/ kind e = errors.CacheDir
  \/ kind e = errors.PackageInstall.
Proof.
  unfold InstallPackage, disk_writes. unfold_os. unfold_monad.
  intros H. crunch; rewrite ?count_events_cons; simpl; auto 10.
Qed.

Lemma dispatch_error_kinds t url s e s' :
  dispatch t url s = (Err e, s') ->
  match t with
  | TypeUnknown => e = errors.ErrUnsupportedModule
  | TypeLocal | TypeCDN => kind e = errors.ModuleNotFound \/ kind e = errors.FileRead
  | TypeNPM => kind e = errors.PackageInstall \/ kind e = errors.FileRead
  | TypeJSR => e = errors.ErrJSRNotImplemented
  end.
Proof.
  destruct t; simpl.
  - unfold ret. by intros [= <- _].
  - unfold loadLocalModule. unfold_os. unfold_monad. intros H. crunch; auto.
  - unfold loadCDNModule, http.NewRequest. unfold_os. unfold_monad. intros H. crunch; auto.
  - unfold loadNPMModule. unfold bind at 1 2. simpl.
    destruct (NewNPMPackageManager _ _) as [[pm|e1] s1]; [|unfold ret; intros; simplify_eq; auto].
    unfold bind at 1.
    destruct (InstallPackage _ _ _ _) as [[path|e2] s2]; [|unfold ret; intros; simplify_eq; auto].
    unfold_os. unfold_monad. intros H. crunch; auto.
  - unfold loadJSRModule. unfold_monad. intros H. crunch; auto.
Qed.

Lemma dispatch_requests t url s :
  requests (snd (dispatch t url s)) <= S (requests s)
  /\ (t <> TypeCDN -> t <> TypeNPM -> requests (snd (dispatch t url s)) = requests s).
Proof.
  destruct t; simpl.
  - split; [lia|done].
  - unfold loadLocalModule, requests. unfold_os. unfold_monad.
    crunch; rewrite ?count_events_cons; simpl; split; auto with lia.
  - split; [|done].
    unfold loadCDNModule, http.NewRequest, requests. unfold_os. unfold_monad.
    crunch; rewrite ?count_events_cons; simpl; lia.
  - split; [|done].
    unfold loadNPMModule. unfold bind at 1 2. simpl.
    pose proof (NewNPMPackageManager_requests
                  (set_trace (EvResolve TypeNPM url :: trace s) s)) as H1.
    destruct (NewNPMPackageManager _ _) as [[pm|e1] s1]; simpl in H1;
      unfold requests in H1; simpl in H1; rewrite count_events_cons in H1; simpl in H1;
      [|unfold ret, requests; simpl; lia].
    unfold bind at 1.
    pose proof (InstallPackage_requests pm (strings.TrimPrefix url "npm:") s1) as H2.
    destruct (InstallPackage _ _ _ _) as [[path|e2] s2]; simpl in H2;
      [|unfold ret, requests in *; simpl; lia].
    unfold requests in *. unfold_os. unfold_monad.
    crunch; rewrite ?count_events_cons; simpl; lia.
  - unfold loadJSRModule, requests. unfold_monad. simpl.
    rewrite count_events_cons. simpl. split; auto with lia.
Qed.

Lemma dispatch_disk t url s :
  t <> TypeNPM ->
  fs (snd (dispatch t url s)) = fs s
  /\ disk_writes (snd (dispatch t url s)) = disk_writes s.
Proof.
  intros Ht. destruct t; simpl; try done.
  - unfold loadLocalModule, disk_writes. unfold_os. unfold_monad.
    crunch; rewrite ?count_events_cons; simpl; auto.
  - unfold loadCDNModule, http.NewRequest, disk_writes. unfold_os. unfold_monad.
    crunch; rewrite ?count_events_cons; simpl; auto.
Qed.

(** X1. The kinds of error a caller of [LoadModule] can see. A failed load
    returns the classifier's error for an invalid specifier, and otherwise
    an error that depends on the scheme only: [ErrUnsupportedModule] for
    an unknown scheme, [ModuleNotFound] or [FileRead] for a local path or
    a CDN URL, [PackageInstall] or [FileRead] for an NPM package,
    [ErrJSRNotImplemented] for JSR. The package manager's own kinds
    ([PackageNotFound], [PackageFetch], [CacheDir]) never reach the
    caller. *)
Theorem LoadModule_error_kinds (urlStr : string) (s s' : State) (e : Error) :
  LoadModule urlStr s = (Err e, s') ->
  (IsValid (ValidateURL urlStr) = false /\ e = Error_ (ValidateURL urlStr))
  \/ (IsValid (ValidateURL urlStr) = true
      /\ match PackageType_ (ValidateURL urlStr) with
         | TypeUnknown => e = errors.ErrUnsupportedModule
         | TypeLocal | TypeCDN =>
             kind e = errors.ModuleNotFound \/ kind e = errors.FileRead
         | TypeNPM => kind e = errors.PackageInstall \/ kind e = errors.FileRead
         | TypeJSR => e = errors.ErrJSRNotImplemented
         end).
Proof.
  intros Hload.
  destruct (LoadModule_cases _ _ _ _ _ _ _ Hload)
    as [(Hv & ? & ->) | [(Hv & l' & Hc & ? & ->) | (Hv & Hc & r1 & s1 & Hd & <- & ->)]];
    simplify_eq; [by left|].
  right. split; [done|]. by eapply dispatch_error_kinds.
Qed.

(** X2. The cache only grows, one entry at a time. A call of [LoadModule]
    keeps every entry the cache had, leaves the entries of all other
    specifiers as they were, and allocates at most one module. *)
Theorem LoadModule_cache_grows (urlStr : string) (s : State) :
  let s' := snd (LoadModule urlStr s) in
  modules s ⊆ modules s'
  /\ (forall k, k <> urlStr -> modules s' !! k = modules s !! k)
  /\ (exists ext, heap s' = heap s ++ ext /\ length ext <= 1)
  /\ (length (heap s') = S (length (heap s)) ->
      modules s !! urlStr = None
      /\ fst (LoadModule urlStr s) = Ok (length (heap s))
      /\ modules s' !! urlStr = Some (length (heap s))).
Proof.
  destruct (LoadModule urlStr s) as [r s'] eqn:Hload. simpl.
  destruct (LoadModule_cases _ _ _ _ _ _ _ Hload)
    as [(Hv & ? & ->) | [(Hv & l' & Hc & ? & ->) | (Hv & Hc & r1 & s1 & Hd & <- & ->)]].
  - split; [done|]. split; [done|]. split; [exists []; rewrite app_nil_r; split; [done|simpl; lia]|]. lia.
  - split; [done|]. split; [done|]. split; [exists []; rewrite app_nil_r; split; [done|simpl; lia]|]. lia.
  - apply dispatch_spec in Hd as (Em & Hr & _).
    destruct r as [l|e].
    + destruct Hr as (-> & (content & Eh) & _). simpl. rewrite Em.
      split; [by apply insert_subseteq|].
      split; [intros k Hk; by rewrite lookup_insert_ne|].
      split; [eexists; split; [exact Eh|simpl; lia]|].
      intros _. by rewrite lookup_insert_eq.
    + rewrite Em, Hr. split; [done|]. split; [done|].
      split; [exists []; rewrite app_nil_r; split; [done|simpl; lia]|]. lia.
Qed.

(** X3. A call of [LoadModule] sends at most one HTTP request, whatever
    the outcome: no resolver retries. A local path, a JSR specifier and a
    specifier of unknown scheme send none. *)
Theorem LoadModule_at_most_one_request (urlStr : string) (s : State) :
  requests (snd (LoadModule urlStr s)) <= S (requests s)
  /\ (PackageType_ (ValidateURL urlStr) <> TypeCDN ->
      PackageType_ (ValidateURL urlStr) <> TypeNPM ->
      requests (snd (LoadModule urlStr s)) = requests s).
Proof.
  destruct (LoadModule urlStr s) as [r s'] eqn:Hload. simpl.
  destruct (LoadModule_cases _ _ _ _ _ _ _ Hload)
    as [(Hv & ? & ->) | [(Hv & l' & Hc & ? & ->) | (Hv & Hc & r1 & s1 & Hd & <- & ->)]];
    [split; [lia|done] .. |].
  pose proof (dispatch_requests (PackageType_ (ValidateURL urlStr)) urlStr s)
    as [Hle Heq].
  rewrite Hd in Hle, Heq. simpl in Hle, Heq.
  destruct r; unfold requests in *; simpl; auto.
Qed.

(** X4. Only the NPM resolver writes to the disk: a load of a specifier of
    any other scheme leaves the file system as it was and issues no
    directory creation and no file write. *)
Theorem LoadModule_writes_only_for_npm (urlStr : string) (s : State) :
  PackageType_ (ValidateURL urlStr) <> TypeNPM ->
  fs (snd (LoadModule urlStr s)) = fs s
  /\ disk_writes (snd (LoadModule urlStr s)) = disk_writes s.
Proof.
  intros Ht.
  destruct (LoadModule urlStr s) as [r s'] eqn:Hload. simpl.
  destruct (LoadModule_cases _ _ _ _ _ _ _ Hload)
    as [(Hv & ? & ->) | [(Hv & l' & Hc & ? & ->) | (Hv & Hc & r1 & s1 & Hd & <- & ->)]];
    [done..|].
  pose proof (dispatch_disk _ urlStr s Ht) as [Hfs Hw].
  rewrite Hd in Hfs, Hw. simpl in Hfs, Hw.
  destruct r; unfold disk_writes in *; simpl; auto.
Qed.

(** X5. A relative local path is read at the working directory, and the
    module keeps the path as it was given. With the file there, the load
    returns a new module with the file's content under the original
    specifier; with no file, or a directory, it fails with [FileRead] and
    caches nothing. *)
Theorem LoadModule_local_relative (urlStr wd : string) (s : State) :
  IsValid (ValidateURL urlStr) = true ->
  PackageType_ (ValidateURL urlStr) = TypeLocal ->
  modules s !! urlStr = None ->
  filepath.IsAbs urlStr = false ->
  Getwd env = Ok wd ->
  match os.node (fs s) (filepath.Join [wd; urlStr]) with
  | Some (File content) =>
      fst (LoadModule urlStr s) = Ok (length (heap s))
      /\ heap (snd (LoadModule urlStr s))
         = heap s ++ [{| URL := urlStr; Content := content; Type_ := TypeLocal |}]
      /\ modules (snd (LoadModule urlStr s)) !! urlStr = Some (length (heap s))
  | _ =>
      (exists e, fst (LoadModule urlStr s) = Err e /\ kind e = errors.FileRead)
      /\ modules (snd (LoadModule urlStr s)) = modules s
      /\ heap (snd (LoadModule urlStr s)) = heap s
  end.
Proof.
  intros Hv Ht Hc Habs Hwd.
  rewrite (LoadModule_miss _ _ _ _ _ Hv Hc), Ht. simpl.
  unfold loadLocalModule, os.Abs, os.ReadFile. unfold_monad. simpl.
  rewrite Habs, Hwd. simpl.
  destruct (os.node (fs s) (filepath.Join [wd; urlStr])) as [[content|]|]; simpl.
  - rewrite lookup_insert_eq. done.
  - eauto.
  - eauto.
Qed.

End LoaderMore.

(** X6. A cached module is never refreshed. Once a load has succeeded,
    every later load of the same specifier returns the same module with
    the same content and does nothing else, whatever has happened to the
    disk and to the network in between. *)
Theorem LoadModule_never_refreshes
    (env env' : Env) (ValidateURL : string -> ValidationResult) (ErrorText : Error -> string)
    (urlStr : string) (s s1 : State) (l : loc)
    (disk : gmap string Node) (events : list Event) :
  LoadModule env ValidateURL ErrorText urlStr s = (Ok l, s1) ->
  let later := set_trace (events ++ trace s1) (set_fs disk s1) in
  LoadModule env' ValidateURL ErrorText urlStr later = (Ok l, later)
  /\ heap later !! l = heap s1 !! l.
Proof.
  intros Hload later.
  split; [|done].
  destruct (LoadModule_cases _ _ _ _ _ _ _ Hload)
    as [(Hv & ? & ->) | [(Hv & l' & Hc & ? & ->) | (Hv & Hc & r1 & s1' & Hd & <- & ->)]];
    simplify_eq.
  - by apply LoadModule_hit.
  - apply LoadModule_hit; [done|]. simpl. by rewrite lookup_insert_eq.
Qed.

(** * Further properties of the package manager *)

Section PackageManagerMore.

Variable env : Env.
Variable ValidateURL : string -> ValidationResult.
Variable ErrorText : Error -> string.

Local Abbreviation LoadModule := (LoadModule env ValidateURL ErrorText).

Lemma ReadFile_eq (name : string) (s : State) :
  os.ReadFile name s
  = (match os.node (fs s) name with
     | Some (File content) => Ok content
     | Some Dir => Err ("read " +:+ name +:+ ": is a directory")
     | None => Err ("open " +:+ name +:+ ": no such file or directory")
     end, set_trace (EvReadFile name :: trace s) s).
Proof.
  unfold os.ReadFile. unfold_monad. simpl. by destruct (os.node _ _) as [[?|]|].
Qed.

Lemma MkdirAll_existing (path : string) (s : State) :
  os.node (fs s) path = Some Dir ->
  os.MkdirAll path s = (Ok tt, set_trace (EvMkdirAll path :: trace s) s).
Proof. intros H. unfold os.MkdirAll. unfold_monad. simpl. by rewrite H. Qed.

Lemma NewNPMPackageManager_existing (s : State) :
  HOME env <> "" ->
  os.node (fs s) (filepath.Join [HOME env; ".edon"; "npm-cache"]) = Some Dir ->
  NewNPMPackageManager env s
  = (Ok {| cacheDir := filepath.Join [HOME env; ".edon"; "npm-cache"] |},
     set_trace (EvMkdirAll (filepath.Join [HOME env; ".edon"; "npm-cache"]) :: trace s) s).
Proof.
  intros Hhome Hdir. unfold NewNPMPackageManager, os.UserHomeDir.
  destruct (String.eqb_spec (HOME env) ""); [done|].
  unfold bind at 1. unfold ret at 1.
  unfold bind at 1. by rewrite (MkdirAll_existing _ _ Hdir).
Qed.

(** X7. [NewNPMPackageManager] roots the package cache at
    [$HOME/.edon/npm-cache] and makes sure it exists: on success the
    directory is on the disk, and creating a second manager finds it there
    and changes nothing. Every failure is of kind [CacheDir]; with [$HOME]
    unset the call fails before it touches the disk. *)
Theorem NewNPMPackageManager_cache_root (s : State) :
  match NewNPMPackageManager env s with
  | (Ok pm, s') =>
      HOME env <> ""
      /\ cacheDir pm = filepath.Join [HOME env; ".edon"; "npm-cache"]
      /\ os.node (fs s') (cacheDir pm) = Some Dir
      /\ fst (NewNPMPackageManager env s') = Ok pm
      /\ fs (snd (NewNPMPackageManager env s')) = fs s'
  | (Err e, s') =>
      kind e = errors.CacheDir
      /\ (HOME env = "" -> s' = s)
  end.
Proof.
  destruct (NewNPMPackageManager env s) as [[pm|e] s'] eqn:Hnew.
  - assert (H : HOME env <> ""
                /\ cacheDir pm = filepath.Join [HOME env; ".edon"; "npm-cache"]
                /\ os.node (fs s') (cacheDir pm) = Some Dir).
    { revert Hnew. unfold NewNPMPackageManager, os.UserHomeDir.
      destruct (String.eqb_spec (HOME env) ""); [unfold bind, ret; intros; simplify_eq|].
      unfold bind at 1. unfold ret at 1. unfold bind at 1.
      destruct (os.MkdirAll _ s) as [[[]|e] s1] eqn:Hmk; unfold ret; intros; simplify_eq.
      apply MkdirAll_ok in Hmk as [Hdir _]. done. }
    destruct H as (Hhome & Hpm & Hdir). rewrite Hpm in Hdir.
    rewrite (NewNPMPackageManager_existing _ Hhome Hdir). simpl.
    rewrite Hpm. repeat split; auto. by destruct pm; simpl in *; subst.
  - revert Hnew. unfold NewNPMPackageManager, os.UserHomeDir.
    destruct (String.eqb_spec (HOME env) "").
    + unfold bind, ret. intros; simplify_eq. auto.
    + unfold bind at 1. unfold ret at 1. unfold bind at 1.
      destruct (os.MkdirAll _ s) as [[[]|e'] s1]; unfold ret; intros; simplify_eq.
      split; [done|]. intros; congruence.
Qed.

(** After a miss of the package cache, [InstallPackage] sends one request
    when the registry URL can be parsed and none when it cannot, whatever
    comes next. *)
Lemma InstallPackage_miss_requests (pm : NPMPackageManager)
    (packageName name version : string) (s : State) :
  splitPackageName packageName = (name, version) ->
  os.node (fs s) (cachePath pm name version) = None ->
  requests (snd (InstallPackage env pm packageName s))
  = requests s + match url_error env (registryURL name version) with
                 | Some _ => 0
                 | None => 1
                 end.
Proof.
  intros Hsplit Hmiss. unfold InstallPackage. rewrite Hsplit.
  unfold bind at 1. rewrite Stat_eq, Hmiss.
  unfold http.Get, http.NewRequest, requests.
  destruct (url_error env (registryURL name version)); unfold_os; unfold_monad;
    crunch; rewrite ?count_events_cons; simpl; lia.
Qed.

(** X8. How [InstallPackage] fails. Its error is of kind [PackageFetch],
    [PackageNotFound], [CacheDir] or [PackageInstall]. When the request
    cannot be made or the registry answers with a status other than 200,
    the disk is left as it was, without a cache directory for the
    package, so the next install of the same reference does again what
    this one did: it sends a request exactly if this one sent one. After
    [PackageNotFound] a request was sent, and the next install sends
    another. *)
Theorem InstallPackage_failure (pm : NPMPackageManager) (packageName : string)
    (s s' : State) (e : Error) :
  InstallPackage env pm packageName s = (Err e, s') ->
  (kind e = errors.PackageFetch \/ kind e = errors.PackageNotFound
   \/ kind e = errors.CacheDir \/ kind e = errors.PackageInstall)
  /\ (kind e = errors.PackageFetch \/ kind e = errors.PackageNotFound ->
      fs s' = fs s
      /\ disk_writes s' = disk_writes s
      /\ (forall r2 s2,
            InstallPackage env pm packageName s' = (r2, s2) ->
            requests s2 + requests s = requests s' + requests s')
      /\ (kind e = errors.PackageNotFound ->
          requests s' = S (requests s)
          /\ forall r2 s2,
               InstallPackage env pm packageName s' = (r2, s2) ->
               requests s2 = S (requests s'))).
Proof.
  intros Hinst.
  pose proof (InstallPackage_error_cases _ _ _ _ _ _ Hinst) as Hcases.
  split.
  { destruct Hcases as [([?| ->] & _) | [?|?]]; auto. }
  intros Hkind.
  destruct Hcases as [(_ & Hfs & Hw) | [Hk|Hk]];
    [|destruct Hkind; congruence|destruct Hkind; congruence].
  split; [done|]. split; [done|].
  destruct (splitPackageName packageName) as [name version] eqn:Hsplit.
  assert (Hmiss : os.node (fs s) (cachePath pm name version) = None).
  { revert Hinst. unfold InstallPackage. rewrite Hsplit.
    unfold bind at 1. rewrite Stat_eq.
    destruct (os.node _ _); [unfold ret; intros; simplify_eq|done]. }
  pose proof (InstallPackage_miss_requests pm _ _ _ s Hsplit Hmiss) as H1.
  rewrite Hinst in H1. simpl in H1.
  assert (Hmiss' : os.node (fs s') (cachePath pm name version) = None) by (by rewrite Hfs).
  pose proof (InstallPackage_miss_requests pm _ _ _ s' Hsplit Hmiss') as H2.
  assert (Hsent : kind e = errors.PackageNotFound ->
                  url_error env (registryURL name version) = None).
  { revert Hinst. unfold InstallPackage. rewrite Hsplit.
    unfold bind at 1. rewrite Stat_eq, Hmiss.
    unfold http.Get, http.NewRequest.
    destruct (url_error env (registryURL name version)); [|done].
    unfold bind, ret. intros; by simplify_eq. }
  split; [intros r2 s2 Hretry; rewrite Hretry in H2; simpl in H2; lia|].
  intros Hnf. rewrite (Hsent Hnf) in H1, H2.
  split; [lia|]. intros r2 s2 Hretry. rewrite Hretry in H2. simpl in H2. lia.
Qed.

Lemma WriteFile_written (name data : string) (s s' : State) :
  os.WriteFile name data s = (Ok tt, s') ->
  os.node (fs s') name = Some (File data)
  /\ (forall q, os.key q <> os.key name -> os.node (fs s') q = os.node (fs s) q)
  /\ (forall q, os.node (fs s) q = Some Dir -> os.node (fs s') q = Some Dir).
Proof.
  intros H. pose proof (WriteFile_nonempty _ _ _ _ H) as Hne.
  apply WriteFile_ok in H as (Hnot & -> & _).
  split; [|split].
  - revert Hnot. unfold os.node.
    destruct (String.eqb_spec name ""); [done|].
    destruct (os.fixed (os.key name)); [done|]. by rewrite lookup_insert_eq.
  - intros q Hq. apply node_insert_ne. congruence.
  - intros q Hq. rewrite node_insert_ne; [done|]. by eapply key_differs.
Qed.

(** X9. A fresh install does not use what the registry sends. When the
    cache path is not on the disk and [InstallPackage] succeeds, exactly
    one request was sent, the cache path is now a directory, and its
    [index.js] holds the placeholder text, which is what reading the
    package's main file then returns. *)
Theorem InstallPackage_fresh_install (pm : NPMPackageManager)
    (packageName name version path : string) (s s1 : State) :
  splitPackageName packageName = (name, version) ->
  os.node (fs s) (cachePath pm name version) = None ->
  InstallPackage env pm packageName s = (Ok path, s1) ->
  path = cachePath pm name version
  /\ requests s1 = S (requests s)
  /\ os.node (fs s1) path = Some Dir
  /\ os.node (fs s1) (filepath.Join [path; "index.js"]) = Some (File placeholderContent)
  /\ fst (os.ReadFile (filepath.Join [path; "index.js"]) s1) = Ok placeholderContent.
Proof.
  intros Hsplit Hmiss. unfold InstallPackage. rewrite Hsplit.
  set (cp := cachePath pm name version) in *.
  unfold bind at 1. rewrite Stat_eq, Hmiss.
  unfold bind at 1.
  destruct (http.Get env _ _) as [got s2] eqn:Hget.
  assert (Hreq : is_Some (match got with Ok r => Some r | Err _ => None end) ->
                 requests s2 = S (requests s)).
  { revert Hget. unfold http.Get, http.NewRequest, http.Do, requests. unfold_monad.
    intros H [r Hr]. crunch; rewrite ?count_events_cons; simpl; auto. }
  destruct got as [resp|e]; [|unfold ret; intros; simplify_eq].
  specialize (Hreq (mk_is_Some _ _ eq_refl)).
  destruct (negb _); [unfold ret; intros; simplify_eq|].
  unfold bind at 1.
  destruct (os.MkdirAll cp s2) as [[[]|e] s3] eqn:Hmk; [|unfold ret; intros; simplify_eq].
  apply MkdirAll_ok in Hmk as [Hdir Htr3].
  unfold bind at 1.
  destruct (os.WriteFile _ _ s3) as [[[]|e] s4] eqn:Hwr; [|unfold ret; intros; simplify_eq].
  pose proof (WriteFile_written _ _ _ _ Hwr) as (Hfile & _ & Hdirs).
  apply WriteFile_ok in Hwr as (Hnot & _ & Htr4).
  unfold ret. intros; simplify_eq.
  split; [done|].
  split; [unfold requests in *; rewrite Htr4, Htr3, !count_events_cons; simpl; lia|].
  split; [by apply Hdirs|].
  split; [done|].
  by rewrite ReadFile_eq, Hfile.
Qed.



End PackageManagerMore.

(** * Further properties of package references *)

Lemma Split_no_sep_in_elems (s : string) (c : ascii) :
  Forall (fun e => strings.Contains e c = false) (strings.Split s c).
Proof.
  induction s as [|d s IH]; simpl.
  - by constructor.
  - destruct (Ascii.eqb d c) eqn:Hd.
    + by constructor.
    + destruct (strings.Split s c) as [|p ps]; [by repeat constructor; simpl; rewrite Hd|].
      inversion IH; subst. constructor; [|done]. simpl. by rewrite Hd.
Qed.

Lemma Split_head_prefix (s : string) (c : ascii) (p : string) (ps : list string) :
  strings.Split s c = p :: ps -> strings.HasPrefix s p = true.
Proof.
  revert p ps. induction s as [|d s IH]; simpl; intros p ps H.
  - by simplify_eq.
  - destruct (Ascii.eqb d c); [by simplify_eq|].
    destruct (strings.Split s c) as [|q qs] eqn:Hs; simplify_eq; simpl.
    + by rewrite Ascii.eqb_refl.
    + rewrite Ascii.eqb_refl. by eapply IH.
Qed.

Lemma Split_two_prefix (s : string) (c : ascii) :
  strings.Contains s c = true ->
  exists a b rest,
    strings.Split s c = a :: b :: rest
    /\ strings.HasPrefix s (a +:+ String c b) = true.
Proof.
  induction s as [|d s IH]; simpl; [done|].
  destruct (Ascii.eqb d c) eqn:Hd; simpl.
  - intros _. destruct (Split_cons s c) as (b & rest & Hs).
    exists "", b, rest. rewrite Hs. split; [done|]. simpl.
    apply Ascii.eqb_eq in Hd as ->. rewrite Ascii.eqb_refl. by eapply Split_head_prefix.
  - intros Hs. destruct (IH Hs) as (a & b & rest & -> & Hp).
    exists (String d a), b, rest. split; [done|]. simpl. by rewrite Ascii.eqb_refl.
Qed.

(** X11. What [InstallPackage] takes for the name and the version of a
    reference. Neither ever contains an [@]. A reference without [@] is
    the name as a whole, with version ["latest"]; a reference with an [@]
    begins with [name@version], and what follows the version is
    ignored. *)
Theorem splitPackageName_sound (packageName : string) :
  let '(name, version) := splitPackageName packageName in
  strings.Contains name "@" = false
  /\ strings.Contains version "@" = false
  /\ (strings.Contains packageName "@" = false ->
      name = packageName /\ version = "latest")
  /\ (strings.Contains packageName "@" = true ->
      strings.HasPrefix packageName (name +:+ "@" +:+ version) = true).
Proof.
  unfold splitPackageName.
  pose proof (Split_no_sep_in_elems packageName "@") as Hall.
  destruct (strings.Contains packageName "@") eqn:Hc.
  - destruct (Split_two_prefix _ _ Hc) as (a & b & rest & Hs & Hp).
    rewrite Hs in *. simpl.
    inversion Hall as [|? ? Ha Hall']; subst. inversion Hall' as [|? ? Hb _]; subst.
    split; [done|]. split; [done|]. split; [discriminate|]. intros _. exact Hp.
  - rewrite (Split_no_sep _ _ Hc) in *. simpl.
    inversion Hall as [|? ? Ha _]; subst.
    split; [done|]. split; [done|]. split; [done|discriminate].
Qed.

(** X12. An [@] at the end does not select the default: for a name
    without [@], the reference [name@] has the empty version, not
    ["latest"], so the registry is asked for [name/] and the cache path is
    built from an empty version. *)
Theorem splitPackageName_empty_version (name : string) :
  strings.Contains name "@" = false ->
  splitPackageName (name +:+ "@") = (name, "")
  /\ registryURL name "" = "https://registry.npmjs.org/" +:+ name +:+ "/"
  /\ splitPackageName (name +:+ "@") <> splitPackageName name.
Proof.
  intros Hn. unfold splitPackageName.
  change (name +:+ "@") with (name +:+ String "@" "").
  rewrite (Split_app_sep _ _ _ Hn), (Split_no_sep _ _ Hn). simpl.
  split; [done|]. split; [done|]. intros [=].
Qed.

Lemma splitPackageName_empty_version_witness :
  splitPackageName "left-pad@" = ("left-pad", "")
  /\ registryURL "left-pad" "" = "https://registry.npmjs.org/left-pad/".
Proof.
  destruct (splitPackageName_empty_version "left-pad" eq_refl) as (H1 & H2 & _).
  split; [exact H1 | exact H2].
Defined.

(** * The [install] command *)

Section InstallCommand.

Variable env : Env.
Variable ValidateURL : string -> ValidationResult.
Variable ErrorText : Error -> string.

Local Abbreviation handleInstall := (handleInstall env ErrorText).
Local Abbreviation installEach := (installEach env ErrorText).

Lemma disk_extends_refl f : disk_extends f f.
Proof. by intros q. Qed.

Lemma disk_extends_trans f1 f2 f3 :
  disk_extends f1 f2 -> disk_extends f2 f3 -> disk_extends f1 f3.
Proof.
  intros H12 H23 q. destruct (H12 q) as [Hd Hs]. destruct (H23 q) as [Hd' Hs']. auto.
Qed.

Lemma node_insert_None (f : gmap string Node) (p q : string) (n m : Node) :
  p <> "" ->
  os.node f p = None -> os.node f q = Some m -> os.node (<[os.key p := n]> f) q = Some m.
Proof.
  intros Hne Hp Hq. destruct (decide (os.key p = os.key q)) as [Hk|Hk].
  - rewrite (node_same_key f p q) in Hp; [congruence|done| |done].
    by eapply node_Some_nonempty.
  - by rewrite node_insert_ne.
Qed.

Lemma mkdir_fold_keeps (l : list string) (f f' : gmap string Node) :
  fold_left os.mkdir_step l (Ok f) = Ok f' ->
  forall q m, os.node f q = Some m -> os.node f' q = Some m.
Proof.
  revert f. induction l as [|p l IH]; intros f; simpl.
  - by intros [= ->].
  - destruct (String.eqb_spec p ""); [by rewrite mkdir_fold_err|].
    destruct (os.node f p) as [[c|]|] eqn:Hp.
    + by rewrite mkdir_fold_err.
    + apply IH.
    + intros Hfold q m Hq. eapply IH; [exact Hfold|]. by apply node_insert_None.
Qed.

Lemma MkdirAll_extends (path : string) (s : State) :
  disk_extends (fs s) (fs (snd (os.MkdirAll path s))).
Proof.
  unfold os.MkdirAll. unfold_monad. simpl.
  destruct (os.node (fs s) path) as [[c|]|]; simpl; try apply disk_extends_refl.
  destruct (String.eqb path ""); simpl; [apply disk_extends_refl|].
  destruct (fold_left _ _ _) as [f'|e] eqn:Hfold; simpl; [|apply disk_extends_refl].
  intros q. split.
  - by apply (mkdir_fold_keeps _ _ _ Hfold).
  - intros [m Hm]. exists m. by apply (mkdir_fold_keeps _ _ _ Hfold).
Qed.

Lemma WriteFile_extends (name data : string) (s : State) :
  disk_extends (fs s) (fs (snd (os.WriteFile name data s))).
Proof.
  destruct (os.WriteFile name data s) as [[[]|e] s'] eqn:Hwr; simpl.
  - pose proof (WriteFile_written _ _ _ _ Hwr) as (Hfile & Hother & Hdirs).
    pose proof (WriteFile_nonempty _ _ _ _ Hwr) as Hne.
    intros q. split; [apply Hdirs|].
    intros [m Hm]. destruct (decide (os.key q = os.key name)) as [Hk|Hk].
    + rewrite (node_same_key _ q name), Hfile; [done| |done|done].
      by eapply node_Some_nonempty.
    + by rewrite (Hother q Hk), Hm.
  - assert (fs s' = fs s) as ->; [|apply disk_extends_refl].
    revert Hwr. unfold os.WriteFile. unfold_monad. simpl.
    intros H. repeat (case_match; simplify_eq); done.
Qed.

Lemma InstallPackage_extends (pm : NPMPackageManager) (packageName : string) (s : State) :
  disk_extends (fs s) (fs (snd (InstallPackage env pm packageName s))).
Proof.
  unfold InstallPackage.
  destruct (splitPackageName packageName) as [name version].
  unfold bind at 1. rewrite Stat_eq.
  destruct (os.node (fs s) _); [apply disk_extends_refl|].
  unfold bind at 1.
  destruct (http.Get env _ _) as [got s2] eqn:Hget.
  assert (Hfs : fs s2 = fs s).
  { revert Hget. unfold http.Get, http.Do. unfold_monad. intros. by crunch. }
  destruct got as [resp|e]; [|simpl; rewrite Hfs; apply disk_extends_refl].
  destruct (negb _); [simpl; rewrite Hfs; apply disk_extends_refl|].
  unfold bind at 1.
  pose proof (MkdirAll_extends (cachePath pm name version) s2) as Hmk.
  destruct (os.MkdirAll _ s2) as [[[]|e] s3]; simpl in Hmk; rewrite Hfs in Hmk; [|done].
  unfold bind at 1.
  match goal with
  | |- context [os.WriteFile ?n ?d s3] =>
      pose proof (WriteFile_extends n d s3) as Hwr;
      destruct (os.WriteFile n d s3) as [[[]|e] s4]
  end; simpl in *; by eapply disk_extends_trans.
Qed.

Lemma NewNPMPackageManager_ok (s s' : State) (pm : NPMPackageManager) :
  NewNPMPackageManager env s = (Ok pm, s') ->
  HOME env <> ""
  /\ pm = defaultManager env
  /\ os.node (fs s') (cacheDir pm) = Some Dir
  /\ disk_extends (fs s) (fs s')
  /\ modules s' = modules s
  /\ requests s' = requests s.
Proof.
  intros Hnew.
  pose proof (NewNPMPackageManager_requests env s) as Hreq.
  pose proof (NewNPMPackageManager_frame env _ _ _ Hnew) as (Hm & _ & _).
  rewrite Hnew in Hreq. simpl in Hreq.
  revert Hnew. unfold NewNPMPackageManager, os.UserHomeDir.
  destruct (String.eqb_spec (HOME env) ""); [unfold bind, ret; intros; simplify_eq|].
  unfold bind at 1. unfold ret at 1. unfold bind at 1.
  pose proof (MkdirAll_extends (filepath.Join [HOME env; ".edon"; "npm-cache"]) s) as Hext.
  destruct (os.MkdirAll _ s) as [[[]|e] s1] eqn:Hmk; unfold ret; intros; simplify_eq.
  apply MkdirAll_ok in Hmk as [Hdir _]. done.
Qed.

Lemma installEach_cons (pm : NPMPackageManager) (pkg : string) (rest : list string)
    (p : Process) :
  installEach pm (pkg :: rest) p
  = let (installed, w) := InstallPackage env pm pkg (world p) in
    match installed with
    | Err err =>
        (Err ("failed to install " +:+ pkg +:+ ": " +:+ ErrorText err),
         {| world := w;
            stdout := stdout p ++ ["Installing " +:+ pkg +:+ "..." +:+ newline] |})
    | Ok path =>
        installEach pm rest
          {| world := w;
             stdout := (stdout p ++ ["Installing " +:+ pkg +:+ "..." +:+ newline])
                       ++ ["Successfully installed " +:+ pkg +:+ " at " +:+ path
                           +:+ newline] |}
    end.
Proof.
  simpl. unfold bindP, print, lift, retP. simpl.
  destruct (InstallPackage env pm pkg (world p)) as [[path|err] w]; done.
Qed.

Lemma installEach_stops (pm : NPMPackageManager) (args rest : list string) (p : Process)
    (e : string) :
  fst (installEach pm args p) = Err e ->
  installEach pm (args ++ rest) p = installEach pm args p.
Proof.
  revert p. induction args as [|pkg args IH]; intros p.
  - simpl. unfold retP. simpl. discriminate.
  - rewrite <- app_comm_cons, !installEach_cons.
    destruct (InstallPackage env pm pkg (world p)) as [[path|err] w]; [|done].
    apply IH.
Qed.

Lemma installEach_success (pm : NPMPackageManager) (args : list string) (p : Process) :
  fst (installEach pm args p) = Ok tt ->
  let p' := snd (installEach pm args p) in
  (forall pkg, pkg ∈ args -> is_Some (os.node (fs (world p')) (cachePathOf pm pkg)))
  /\ disk_extends (fs (world p)) (fs (world p'))
  /\ modules (world p') = modules (world p)
  /\ length (stdout p') = length (stdout p) + 2 * length args
  /\ requests (world p') <= requests (world p) + length args.
Proof.
  revert p. induction args as [|pkg args IH]; intros p.
  - simpl. intros _. split; [by intros ? ?%elem_of_nil|].
    split; [apply disk_extends_refl|]. auto with lia.
  - rewrite installEach_cons.
    pose proof (InstallPackage_extends pm pkg (world p)) as Hext.
    pose proof (InstallPackage_requests env pm pkg (world p)) as Hreq.
    destruct (InstallPackage env pm pkg (world p)) as [[path|err] w] eqn:Hinst;
      [|simpl; discriminate].
    simpl in Hext, Hreq.
    assert (Hcp : is_Some (os.node (fs w) (cachePathOf pm pkg))).
    { unfold cachePathOf. destruct (splitPackageName pkg) as [name version] eqn:Hsplit.
      destruct (InstallPackage_ok env _ _ _ _ _ _ _ Hsplit Hinst) as (-> & Hsome & _).
      done. }
    pose proof (InstallPackage_frame env _ _ _ _ _ Hinst) as (Hm & _ & _).
    intros Hok. specialize (IH _ Hok). cbv zeta in IH.
    destruct IH as (Hall & Hext' & Hm' & Hout & Hreq').
    simpl in Hext', Hm', Hout, Hreq'.
    split; [|split; [|split; [|split]]].
    + intros pkg' Hin'. apply elem_of_cons in Hin' as [->|Hin]; [|by apply Hall].
      destruct (Hext' (cachePathOf pm pkg)) as [_ Hs]. by apply Hs.
    + by eapply disk_extends_trans.
    + congruence.
    + rewrite Hout, !length_app. simpl. lia.
    + simpl. lia.
Qed.

(** X13. [handleInstall] stops at the first package that fails to
    install: the packages after it are not attempted. Whatever is listed
    after a failing run changes neither the error nor the output nor the
    state the command leaves. *)
Theorem handleInstall_stops_at_failure (args rest : list string) (p : Process) (e : string) :
  args <> [] ->
  fst (handleInstall args p) = Err e ->
  handleInstall (args ++ rest) p = handleInstall args p.
Proof.
  intros Hne. unfold handleInstall.
  assert (Hlen : forall l : list string, l <> [] -> (length l <? 1)%nat = false)
    by (by intros [|? ?]).
  rewrite !Hlen by (by destruct args).
  unfold bindP, lift.
  destruct (NewNPMPackageManager env (world p)) as [[pm|err] w]; [|done].
  intros Hfail. by eapply installEach_stops.
Qed.

(** X14. When [handleInstall] succeeds, the cache path of every package
    it was given is on the disk, wherever [filepath.Join] puts it (a name
    with [..] elements is not kept under the cache root). The cache root
    is a directory, nothing that was on the disk before has been removed,
    two lines were printed per package, and at most one request was sent
    per package. *)
Theorem handleInstall_success (args : list string) (p : Process) :
  fst (handleInstall args p) = Ok tt ->
  let p' := snd (handleInstall args p) in
  args <> []
  /\ (forall pkg, pkg ∈ args ->
        is_Some (os.node (fs (world p')) (cachePathOf (defaultManager env) pkg)))
  /\ os.node (fs (world p')) (cacheDir (defaultManager env)) = Some Dir
  /\ disk_extends (fs (world p)) (fs (world p'))
  /\ length (stdout p') = length (stdout p) + 2 * length args
  /\ requests (world p') <= requests (world p) + length args.
Proof.
  unfold handleInstall.
  destruct args as [|pkg0 args0] eqn:Hargs; [simpl; discriminate|].
  rewrite <- Hargs. replace (length args <? 1)%nat with false by (by subst).
  unfold bindP, lift.
  destruct (NewNPMPackageManager env (world p)) as [[pm|err] w] eqn:Hnew;
    [|simpl; discriminate].
  destruct (NewNPMPackageManager_ok _ _ _ Hnew) as (_ & -> & Hdir & Hext & _ & Hreq).
  intros Hok. apply installEach_success in Hok. cbv zeta in Hok.
  destruct Hok as (Hall & Hext' & _ & Hout & Hreq'). simpl in Hext', Hout, Hreq'.
  split; [by subst|]. split; [done|].
  split; [by apply (Hext' (cacheDir (defaultManager env)))|].
  split; [by eapply disk_extends_trans|].
  split; [done|lia].
Qed.

Lemma npm_dispatch_from_cache (urlStr : string) (s : State) :
  HOME env <> "" ->
  os.node (fs s) (cacheDir (defaultManager env)) = Some Dir ->
  is_Some (os.node (fs s)
             (cachePathOf (defaultManager env) (strings.TrimPrefix urlStr "npm:"))) ->
  fs (snd (dispatch env ErrorText TypeNPM urlStr s)) = fs s
  /\ requests (snd (dispatch env ErrorText TypeNPM urlStr s)) = requests s
  /\ (forall e, fst (dispatch env ErrorText TypeNPM urlStr s) = Err e ->
                kind e = errors.FileRead).
Proof.
  intros Hhome Hroot Hcp.
  destruct (dispatch env ErrorText TypeNPM urlStr s) as [r s1] eqn:Hd.
  revert Hd. simpl. unfold loadNPMModule. unfold bind at 1. unfold emit.
  unfold bind at 1.
  rewrite (NewNPMPackageManager_existing _ _ Hhome) by done.
  unfold bind at 1. fold (defaultManager env).
  unfold cachePathOf in Hcp.
  destruct (splitPackageName (strings.TrimPrefix urlStr "npm:")) as [name version] eqn:Hsplit.
  rewrite (InstallPackage_hit _ _ _ _ _ _ Hsplit) by done.
  unfold bind at 1. rewrite ReadFile_eq. cbn [fs set_trace].
  set (mainFile := filepath.Join [_; "index.js"]).
  destruct (os.node (fs s) mainFile) as [[content|]|];
    unfold bind, alloc, ret, requests; intros; simplify_eq; simpl;
    rewrite !count_events_cons; simpl;
    repeat split; auto; intros; by simplify_eq.
Qed.

(** X15. A package installed from the command line is loaded from the
    package cache. After a successful [handleInstall], loading the
    specifier [npm:pkg] of any of its packages sends no request and
    leaves the disk as it is; if the load fails, it is for want of a
    readable [index.js]. *)
Theorem install_then_load (args : list string) (p : Process) (pkg : string) :
  fst (handleInstall args p) = Ok tt ->
  pkg ∈ args ->
  IsValid (ValidateURL ("npm:" +:+ pkg)) = true ->
  PackageType_ (ValidateURL ("npm:" +:+ pkg)) = TypeNPM ->
  modules (world p) !! ("npm:" +:+ pkg) = None ->
  let w := world (snd (handleInstall args p)) in
  requests (snd (LoadModule env ValidateURL ErrorText ("npm:" +:+ pkg) w)) = requests w
  /\ fs (snd (LoadModule env ValidateURL ErrorText ("npm:" +:+ pkg) w)) = fs w
  /\ (forall e, fst (LoadModule env ValidateURL ErrorText ("npm:" +:+ pkg) w) = Err e ->
                kind e = errors.FileRead).
Proof.
  intros Hok Hin Hv Ht Hc w.
  assert (Hfacts : HOME env <> ""
                   /\ os.node (fs w) (cacheDir (defaultManager env)) = Some Dir
                   /\ is_Some (os.node (fs w) (cachePathOf (defaultManager env) pkg))
                   /\ modules w = modules (world p)).
  { subst w. revert Hok. unfold handleInstall.
    destruct args as [|pkg0 args0] eqn:Hargs; [simpl; discriminate|].
    rewrite <- Hargs in *. replace (length args <? 1)%nat with false by (by subst).
    unfold bindP, lift.
    destruct (NewNPMPackageManager env (world p)) as [[pm|err] w] eqn:Hnew;
      [|simpl; discriminate].
    destruct (NewNPMPackageManager_ok _ _ _ Hnew) as (Hhome & -> & Hdir & _ & Hm & _).
    intros Hok. apply installEach_success in Hok. cbv zeta in Hok.
    destruct Hok as (Hall & Hext' & Hm' & _). simpl in Hext', Hm'.
    split; [done|]. split; [by apply (Hext' (cacheDir (defaultManager env)))|].
    split; [by apply Hall|congruence]. }
  destruct Hfacts as (Hhome & Hroot & Hcp & Hm).
  rewrite <- Hm in Hc.
  rewrite (LoadModule_miss _ _ _ _ _ Hv Hc), Ht.
  pose proof (npm_dispatch_from_cache ("npm:" +:+ pkg) w Hhome Hroot) as Hd.
  rewrite TrimPrefix_npm in Hd. specialize (Hd Hcp).
  destruct Hd as (Hfs & Hreq & Hkind).
  destruct (dispatch env ErrorText TypeNPM ("npm:" +:+ pkg) w) as [[l|e] s1];
    simpl in *; unfold requests in *; simpl; repeat split; auto; intros; by simplify_eq.
Qed.

End InstallCommand.

(** * Joining a directory and a file name *)

Lemma Split_app (a b : string) (c : ascii) :
  strings.Split (a +:+ String c b) c = strings.Split a c ++ strings.Split b c.
Proof.
  induction a as [|d a IH]; simpl.
  - by rewrite Ascii.eqb_refl.
  - destruct (Ascii.eqb d c); [by rewrite IH|].
    rewrite IH. by destruct (Split_cons a c) as (p & ps & ->).
Qed.

Lemma append_assoc (a b c : string) : (a +:+ b) +:+ c = a +:+ (b +:+ c).
Proof.
  induction a as [|d a IH]; [done|].
  change (String d ((a +:+ b) +:+ c) = String d (a +:+ b +:+ c)). by rewrite IH.
Qed.

Lemma Join_snoc (l : list string) (n : string) :
  strings.Join (l ++ [n]) "/"
  = match l with
    | [] => n
    | _ => strings.Join l "/" +:+ "/" +:+ n
    end.
Proof.
  induction l as [|e l IH]; [done|].
  destruct l as [|e' l]; [done|].
  change ((e :: e' :: l) ++ [n]) with (e :: ((e' :: l) ++ [n])).
  change (strings.Join (e :: (e' :: l) ++ [n]) "/")
    with (e +:+ "/" +:+ strings.Join ((e' :: l) ++ [n]) "/").
  rewrite IH.
  change (strings.Join (e :: e' :: l) "/") with (e +:+ "/" +:+ strings.Join (e' :: l) "/").
  by rewrite !append_assoc.
Qed.

Lemma append_inv_head (pre a b : string) : pre +:+ a = pre +:+ b -> a = b.
Proof. apply String.app_inj. Qed.

Lemma append_nonempty (a b : string) : b <> "" -> a +:+ b <> "".
Proof.
  intros Hb. destruct a as [|c a]; [done|].
  change (String c (a +:+ b) <> ""). discriminate.
Qed.

Lemma clean_step_plain (rooted : bool) (out : list string) (n : string) :
  plain_name n -> filepath.clean_step rooted out n = n :: out.
Proof.
  intros (_ & H1 & H2 & H3). unfold filepath.clean_step.
  destruct (String.eqb_spec n ""); [done|].
  destruct (String.eqb_spec n "."); [done|].
  destruct (String.eqb_spec n ".."); done.
Qed.

Lemma IsAbs_append (d rest : string) :
  d <> "" -> filepath.IsAbs (d +:+ rest) = filepath.IsAbs d.
Proof. destruct d as [|c d]; [done|]. intros _. reflexivity. Qed.

Lemma IsAbs_plain (n : string) : plain_name n -> filepath.IsAbs n = false.
Proof.
  intros (Hc & Hne & _). destruct n as [|c n]; [done|].
  unfold filepath.IsAbs. cbn [strings.HasPrefix].
  cbn [strings.Contains] in Hc. unfold filepath.Separator in Hc.
  apply orb_false_iff in Hc as [Hc _].
  rewrite Ascii.eqb_sym. by rewrite Hc.
Qed.

Lemma Clean_plain (n : string) : plain_name n -> filepath.Clean n = n.
Proof.
  intros Hn. pose proof Hn as (Hc & Hne & _).
  unfold filepath.Clean. destruct (String.eqb_spec n ""); [done|].
  rewrite (IsAbs_plain _ Hn), (Split_no_sep _ _ Hc). cbn [fold_left].
  rewrite (clean_step_plain _ _ _ Hn). cbn [rev app strings.Join].
  by destruct (String.eqb_spec n "").
Qed.

(** Cleaning a directory followed by a plain file name gives the name
    after a prefix that depends on the directory only, and that is empty
    or ends with a separator. *)
Lemma Clean_dir_name (d : string) :
  exists pre,
    (pre = "" \/ exists d', pre = d' +:+ "/")
    /\ forall n, plain_name n ->
                 filepath.Clean (d +:+ String filepath.Separator n) = pre +:+ n.
Proof.
  set (rooted := if String.eqb d "" then true else filepath.IsAbs d).
  set (out := fold_left (filepath.clean_step rooted)
                        (strings.Split d filepath.Separator) []).
  exists ((if rooted then "/" else "")
          +:+ match rev out with
              | [] => ""
              | _ => strings.Join (rev out) "/" +:+ "/"
              end).
  split.
  { destruct rooted, (rev out) as [|e l].
    - right. by exists "".
    - right. exists ("/" +:+ strings.Join (e :: l) "/"). by rewrite append_assoc.
    - by left.
    - right. by exists (strings.Join (e :: l) "/"). }
  intros n Hn. pose proof Hn as (Hc & Hne & _).
  unfold filepath.Clean.
  destruct (String.eqb_spec (d +:+ String filepath.Separator n) "") as [He|_].
  { by destruct d. }
  assert (Hrooted : filepath.IsAbs (d +:+ String filepath.Separator n) = rooted).
  { subst rooted. destruct (String.eqb_spec d "") as [Hd|Hd]; [by rewrite Hd|].
    by apply IsAbs_append. }
  rewrite Hrooted.
  rewrite Split_app, (Split_no_sep _ _ Hc), fold_left_app. fold out. simpl fold_left.
  rewrite (clean_step_plain _ _ _ Hn). simpl rev. rewrite Join_snoc.
  destruct (rev out) as [|e l] eqn:Hrev.
  + destruct rooted; [done|]. by destruct (String.eqb_spec n "").
  + generalize (strings.Join (e :: l) "/"). intros J.
    destruct rooted.
    * change ("/" +:+ (J +:+ "/" +:+ n) = ("/" +:+ (J +:+ "/")) +:+ n).
      by rewrite !append_assoc.
    * destruct (String.eqb_spec (J +:+ "/" +:+ n) "") as [He|_].
      { exfalso. revert He. apply append_nonempty. by apply append_nonempty. }
      change (J +:+ "/" +:+ n = (J +:+ "/") +:+ n). by rewrite append_assoc.
Qed.

(** Joining a directory with a plain file name appends the name to a
    prefix that depends on the directory only. *)
Lemma Join_dir_name (d : string) :
  exists pre,
    (pre = "" \/ exists d', pre = d' +:+ "/")
    /\ forall n, plain_name n -> filepath.Join [d; n] = pre +:+ n.
Proof.
  destruct (String.eqb_spec d "") as [->|Hd].
  - exists "". split; [by left|]. intros n Hn. pose proof Hn as (_ & Hne & _).
    unfold filepath.Join. cbn [filepath.from_first_nonempty].
    destruct (String.eqb_spec "" ""); [|done].
    destruct (String.eqb_spec n ""); [done|].
    cbn [strings.Join]. by apply Clean_plain.
  - destruct (Clean_dir_name d) as (pre & Hpre & Hclean).
    exists pre. split; [done|]. intros n Hn.
    unfold filepath.Join. cbn [filepath.from_first_nonempty].
    destruct (String.eqb_spec d ""); [done|].
    change (strings.Join [d; n] "/") with (d +:+ String filepath.Separator n).
    by apply Hclean.
Qed.

(** So does the key of the joined path. *)
Lemma key_Join_name (d : string) :
  exists pre, forall n, plain_name n -> os.key (filepath.Join [d; n]) = pre +:+ n.
Proof.
  destruct (Join_dir_name d) as (pre & [-> | [d' ->]] & Hjoin).
  - exists "". intros n Hn. rewrite (Hjoin n Hn). by apply Clean_plain.
  - destruct (Clean_dir_name d') as (pre2 & _ & Hclean).
    exists pre2. intros n Hn. rewrite (Hjoin n Hn). unfold os.key.
    rewrite append_assoc. by apply Hclean.
Qed.

Lemma Join_keys_differ (d n1 n2 : string) :
  plain_name n1 -> plain_name n2 -> n1 <> n2 ->
  os.key (filepath.Join [d; n1]) <> os.key (filepath.Join [d; n2]).
Proof.
  intros H1 H2 Hne. destruct (key_Join_name d) as [pre Hpre].
  rewrite (Hpre _ H1), (Hpre _ H2). intros Heq. by apply append_inv_head in Heq.
Qed.

(** * The [init] command *)

Lemma plain_package_json : plain_name "package.json".
Proof. repeat split; discriminate. Qed.

Lemma plain_index_js : plain_name "index.js".
Proof. repeat split; discriminate. Qed.

Lemma MkdirAll_frame (path : string) (s : State) :
  modules (snd (os.MkdirAll path s)) = modules s
  /\ heap (snd (os.MkdirAll path s)) = heap s
  /\ requests (snd (os.MkdirAll path s)) = requests s.
Proof.
  unfold os.MkdirAll, requests. unfold_monad.
  crunch; rewrite ?count_events_cons; auto.
Qed.

Lemma WriteFile_frame (name data : string) (s : State) :
  modules (snd (os.WriteFile name data s)) = modules s
  /\ heap (snd (os.WriteFile name data s)) = heap s
  /\ requests (snd (os.WriteFile name data s)) = requests s.
Proof.
  unfold os.WriteFile, requests. unfold_monad.
  crunch; rewrite ?count_events_cons; auto.
Qed.

Section InitCommand.

Variable env : Env.
Variable ValidateURL : string -> ValidationResult.
Variable ErrorText : Error -> string.
Variable jsonString : string -> string.

Local Abbreviation HandleInit := (HandleInit env jsonString).
Local Abbreviation packageJSON := (packageJSON jsonString).

Local Abbreviation initialized := (initialized jsonString).

Lemma HandleInit_given (dir : string) (p : Process) :
  dir <> "" ->
  match HandleInit dir p with
  | (Ok _, p') => initialized dir p p'
  | (Err _, p') => stdout p' = stdout p
  end.
Proof.
  intros Hdir. unfold HandleInit.
  destruct (String.eqb_spec dir ""); [done|].
  unfold bindP at 1. unfold retP at 1.
  unfold bindP at 1. unfold lift at 1.
  pose proof (MkdirAll_extends dir (world p)) as Hext1.
  pose proof (MkdirAll_frame dir (world p)) as (Hm1 & Hh1 & Hr1).
  destruct (os.MkdirAll dir (world p)) as [[[]|e] w1] eqn:Hmk; [|done].
  apply MkdirAll_ok in Hmk as [Hdir1 _]. simpl in Hext1, Hm1, Hh1, Hr1.
  unfold bindP at 1. unfold lift at 1. cbn [world stdout].
  set (pj := filepath.Join [dir; "package.json"]).
  set (ij := filepath.Join [dir; "index.js"]).
  set (json := packageJSON (filepath.Base dir)).
  pose proof (WriteFile_extends pj json w1) as Hext2.
  pose proof (WriteFile_frame pj json w1) as (Hm2 & Hh2 & Hr2).
  destruct (os.WriteFile pj json w1) as [[[]|e] w2] eqn:Hw2; [|done].
  pose proof (WriteFile_written _ _ _ _ Hw2) as (Hfile2 & _ & Hdirs2).
  simpl in Hext2, Hm2, Hh2, Hr2.
  unfold bindP at 1. unfold lift at 1. cbn [world stdout].
  pose proof (WriteFile_extends ij indexJSContent w2) as Hext3.
  pose proof (WriteFile_frame ij indexJSContent w2) as (Hm3 & Hh3 & Hr3).
  destruct (os.WriteFile ij indexJSContent w2) as [[[]|e] w3] eqn:Hw3; [|done].
  pose proof (WriteFile_written _ _ _ _ Hw3) as (Hfile3 & Hother3 & Hdirs3).
  simpl in Hext3, Hm3, Hh3, Hr3.
  unfold bindP, print, retP. cbn [world stdout].
  assert (Hpj_ij : os.key pj <> os.key ij).
  { apply Join_keys_differ; [apply plain_package_json|apply plain_index_js|discriminate]. }
  split; [by apply Hdirs3, Hdirs2|].
  split; [by rewrite Hother3|].
  split; [done|].
  split; [eapply disk_extends_trans; [|exact Hext3];
          eapply disk_extends_trans; [exact Hext1|exact Hext2]|].
  cbn [world stdout].
  split; [congruence|]. split; [congruence|]. split; [congruence|].
  by rewrite <- !app_assoc.
Qed.

Lemma HandleInit_default (wd : string) (p : Process) :
  Getwd env = Ok wd -> wd <> "" -> HandleInit "" p = HandleInit wd p.
Proof.
  intros Hwd Hne. unfold HandleInit. rewrite Hwd. simpl.
  by destruct (String.eqb_spec wd "").
Qed.

Lemma HandleInit_cases (arg0 : string) (p : Process) :
  match HandleInit arg0 p with
  | (Ok _, p') => initialized (initDir env arg0) p p'
  | (Err _, p') => stdout p' = stdout p
  end.
Proof.
  unfold initDir. destruct (String.eqb_spec arg0 "") as [->|Hne].
  - destruct (Getwd env) as [wd|e] eqn:Hwd.
    + destruct (String.eqb_spec wd "") as [->|Hwdne].
      * unfold HandleInit. rewrite Hwd. simpl.
        unfold bindP, retP, lift, os.MkdirAll. unfold_monad. simpl. done.
      * rewrite (HandleInit_default _ _ Hwd Hwdne). by apply HandleInit_given.
    + unfold HandleInit. rewrite Hwd. simpl. done.
  - by apply HandleInit_given.
Qed.


(** X17. A project made by [edon init] loads. After [HandleInit] has
    succeeded without an argument, loading the relative specifier
    [index.js] from the same working directory returns a new module whose
    content is the line [HandleInit] wrote. *)
Theorem init_then_load (wd : string) (p : Process) :
  Getwd env = Ok wd ->
  fst (HandleInit "" p) = Ok tt ->
  IsValid (ValidateURL "index.js") = true ->
  PackageType_ (ValidateURL "index.js") = TypeLocal ->
  modules (world p) !! "index.js" = None ->
  let w := world (snd (HandleInit "" p)) in
  fst (LoadModule env ValidateURL ErrorText "index.js" w) = Ok (length (heap w))
  /\ heap (snd (LoadModule env ValidateURL ErrorText "index.js" w))
     = heap w ++ [{| URL := "index.js"; Content := indexJSContent; Type_ := TypeLocal |}].
Proof.
  intros Hwd Hok Hv Ht Hc w.
  pose proof (HandleInit_cases "" p) as H.
  subst w. destruct (HandleInit "" p) as [[[]|msg] p']; [|simpl in Hok; discriminate].
  destruct H as (_ & _ & Hij & _ & Hm & _). simpl.
  unfold initDir in Hij. simpl in Hij. rewrite Hwd in Hij.
  rewrite <- Hm in Hc.
  rewrite (LoadModule_miss _ _ _ _ _ Hv Hc), Ht. simpl.
  unfold loadLocalModule, os.Abs, os.ReadFile. unfold_monad. simpl.
  rewrite Hwd. simpl. rewrite Hij. done.
Qed.

End InitCommand.

(** * The further properties at work *)

Lemma LoadModule_error_kinds_witness :
  exists e, fst (load200 "bar.js" (fresh disk0)) = Err e /\ kind e = errors.FileRead.
Proof.
  destruct (LoadModule_error_kinds env200 SpecValidateURL SpecErrorText "bar.js"
              (fresh disk0) (snd (load200 "bar.js" (fresh disk0)))
              (errors.Wrap errors.ErrFileRead "open /work/bar.js: no such file or directory"))
    as [[Hv _] | [_ Hk]].
  - vm_compute. reflexivity.
  - vm_compute in Hv. discriminate.
  - eexists. split; [vm_compute; reflexivity|reflexivity].
Defined.

Lemma LoadModule_writes_only_for_npm_witness :
  fs (snd (load200 "https://cdn.example.com/mod.js" (fresh disk0))) = disk0.
Proof.
  destruct (LoadModule_writes_only_for_npm env200 SpecValidateURL SpecErrorText
              "https://cdn.example.com/mod.js" (fresh disk0)) as [Hfs _].
  - vm_compute. discriminate.
  - exact Hfs.
Defined.

Lemma LoadModule_local_relative_witness :
  fst (load200 "foo.js" (fresh disk0)) = Ok 0
  /\ heap (snd (load200 "foo.js" (fresh disk0)))
     = [{| URL := "foo.js"; Content := "export const foo = 1"; Type_ := TypeLocal |}]
  /\ modules (snd (load200 "foo.js" (fresh disk0))) !! "foo.js" = Some 0.
Proof.
  exact (LoadModule_local_relative env200 SpecValidateURL SpecErrorText
           "foo.js" "/work" (fresh disk0) eq_refl eq_refl eq_refl eq_refl eq_refl).
Defined.

Lemma LoadModule_never_refreshes_witness :
  let s1 := snd (load200 "./foo.js" (fresh disk0)) in
  let later := set_trace (trace s1) (set_fs ∅ s1) in
  LoadModule env404 SpecValidateURL SpecErrorText "./foo.js" later = (Ok 0, later).
Proof.
  intros s1 later.
  destruct (LoadModule_never_refreshes env200 env404 SpecValidateURL SpecErrorText
              "./foo.js" (fresh disk0) s1 0 ∅ []) as [H _].
  - vm_compute. reflexivity.
  - exact H.
Defined.

Lemma InstallPackage_failure_witness :
  let pm := {| cacheDir := "/home/u/.edon/npm-cache" |} in
  let s' := snd (InstallPackage env404 pm "left-pad" (fresh ∅)) in
  fs s' = ∅
  /\ disk_writes s' = 0
  /\ requests s' = 1
  /\ requests (snd (InstallPackage env404 pm "left-pad" s')) = 2.
Proof.
  intros pm s'.
  destruct (InstallPackage_failure env404 pm "left-pad" (fresh ∅) s'
              errors.ErrPackageNotFound) as (_ & Hdisk).
  - vm_compute. reflexivity.
  - destruct Hdisk as (Hfs & Hw & _ & Hnf); [by right|].
    destruct (Hnf eq_refl) as (Hfirst & Hretry).
    split; [exact Hfs|]. split; [exact Hw|]. split; [exact Hfirst|].
    rewrite (Hretry (fst (InstallPackage env404 pm "left-pad" s'))
                    (snd (InstallPackage env404 pm "left-pad" s')));
      [by rewrite Hfirst | by destruct (InstallPackage env404 pm "left-pad" s')].
Defined.

Lemma InstallPackage_fresh_install_witness :
  let pm := {| cacheDir := "/home/u/.edon/npm-cache" |} in
  let s1 := snd (InstallPackage env200 pm "left-pad@1.3.0" (fresh ∅)) in
  requests s1 = 1
  /\ fst (os.ReadFile "/home/u/.edon/npm-cache/left-pad/1.3.0/index.js" s1)
     = Ok placeholderContent.
Proof.
  intros pm s1.
  destruct (InstallPackage_fresh_install env200 pm "left-pad@1.3.0" "left-pad" "1.3.0"
              "/home/u/.edon/npm-cache/left-pad/1.3.0" (fresh ∅) s1)
    as (_ & Hreq & _ & _ & Hread).
  - reflexivity.
  - reflexivity.
  - vm_compute. reflexivity.
  - split; [exact Hreq | exact Hread].
Defined.


Lemma handleInstall_stops_at_failure_witness :
  handleInstall env404 SpecErrorText ["left-pad"; "a@1"] (boot (fresh ∅))
  = handleInstall env404 SpecErrorText ["left-pad"] (boot (fresh ∅)).
Proof.
  apply (handleInstall_stops_at_failure env404 SpecErrorText ["left-pad"] ["a@1"]
           (boot (fresh ∅)) "failed to install left-pad: package not found").
  - discriminate.
  - vm_compute. reflexivity.
Defined.

Lemma handleInstall_success_witness :
  let p' := snd (handleInstall env200 SpecErrorText ["left-pad"; "a@1"] (boot (fresh ∅))) in
  is_Some (os.node (fs (world p')) "/home/u/.edon/npm-cache/a/1")
  /\ length (stdout p') = 4
  /\ requests (world p') <= 2.
Proof.
  intros p'.
  destruct (handleInstall_success env200 SpecErrorText ["left-pad"; "a@1"] (boot (fresh ∅)))
    as (_ & Hall & _ & _ & Hout & Hreq).
  - vm_compute. reflexivity.
  - split; [|split; [exact Hout | exact Hreq]].
    apply (Hall "a@1"). apply elem_of_cons. right. apply elem_of_cons. by left.
Defined.

Lemma install_then_load_witness :
  let w := world (snd (handleInstall env200 SpecErrorText ["left-pad"; "a@1"]
                         (boot (fresh ∅)))) in
  requests (snd (load200 "npm:a@1" w)) = requests w
  /\ fs (snd (load200 "npm:a@1" w)) = fs w.
Proof.
  intros w.
  destruct (install_then_load env200 SpecValidateURL SpecErrorText ["left-pad"; "a@1"]
              (boot (fresh ∅)) "a@1") as (Hreq & Hfs & _).
  - vm_compute. reflexivity.
  - apply elem_of_cons. right. apply elem_of_cons. by left.
  - reflexivity.
  - reflexivity.
  - reflexivity.
  - split; [exact Hreq | exact Hfs].
Defined.

Lemma init_then_load_witness :
  let w := world (snd (HandleInit env200 plainJSONString "" (boot (fresh disk0)))) in
  fst (load200 "index.js" w) = Ok 0
  /\ heap (snd (load200 "index.js" w))
     = [{| URL := "index.js"; Content := indexJSContent; Type_ := TypeLocal |}].
Proof.
  intros w.
  destruct (init_then_load env200 SpecValidateURL SpecErrorText plainJSONString "/work"
              (boot (fresh disk0))) as (Hret & Hheap).
  - reflexivity.
  - vm_compute. reflexivity.
  - reflexivity.
  - reflexivity.
  - reflexivity.
  - split; [exact Hret | exact Hheap].
Defined.

(** * Concurrent loads keep the cache sound *)

Section ConcurrencyMore.

Variable env : Env.
Variable ValidateURL : string -> ValidationResult.
Variable ErrorText : Error -> string.

Local Abbreviation call_step := (call_step env ValidateURL ErrorText).
Local Abbreviation run_schedule := (run_schedule env ValidateURL ErrorText).
Local Abbreviation cache_inv := (cache_inv ValidateURL).
Local Abbreviation pc_ok := (pc_ok ValidateURL).

Lemma pc_ok_heap (urlStr : string) (s s' : State) (pc : Pc) :
  heap_preserved s s' -> pc_ok urlStr s pc -> pc_ok urlStr s' pc.
Proof.
  intros Hh. destruct pc as [| |l|[l|e]]; simpl; try done.
  all: intros (m & Hm & ?); exists m; split; [by apply Hh|done].
Qed.

Lemma heap_preserved_trans (s1 s2 s3 : State) :
  heap_preserved s1 s2 -> heap_preserved s2 s3 -> heap_preserved s1 s3.
Proof. intros H12 H23 l m H. auto. Qed.

Lemma cache_inv_put (s : State) (l : loc) (m : Module) :
  cache_inv s ->
  heap s !! l = Some m ->
  IsValid (ValidateURL (URL m)) = true ->
  Type_ m = PackageType_ (ValidateURL (URL m)) ->
  producing (Type_ m) ->
  cache_inv (set_modules (<[URL m := l]> (modules s)) s).
Proof.
  intros Hinv Hm Hv Ht Hp k l' Hk. simpl in *.
  destruct (decide (URL m = k)) as [<-|Hne].
  - rewrite lookup_insert_eq in Hk. simplify_eq. exists m. done.
  - rewrite lookup_insert_ne in Hk by done. by apply Hinv.
Qed.

(** One step of either goroutine keeps the cache invariant, what both
    goroutines hold, and every allocated module. *)
Lemma call_step_sound (urlStr : string) (pc other pc' : Pc) (s s' : State) :
  call_step urlStr pc s = (pc', s') ->
  cache_inv s -> pc_ok urlStr s pc -> pc_ok urlStr s other ->
  cache_inv s' /\ pc_ok urlStr s' pc' /\ pc_ok urlStr s' other /\ heap_preserved s s'.
Proof.
  intros Hstep Hinv Hpc Hother.
  assert (Hrefl : heap_preserved s s) by (by intros ? ?).
  destruct pc as [| |l|r]; simpl in Hstep.
  - destruct (IsValid (ValidateURL urlStr)) eqn:Hv; simpl in Hstep.
    + revert Hstep. unfold bind, getFromCache, ret.
      destruct (modules s !! urlStr) as [l|] eqn:Hc; intros; simplify_eq.
      * split; [done|]. split; [|by split].
        destruct (Hinv _ _ Hc) as (m & Hm & Hu & Hv' & Ht & Hp). simpl. eauto 10.
      * by repeat split.
    + unfold ret in Hstep. simplify_eq. by repeat split.
  - revert Hstep. unfold bind at 1.
    destruct (dispatch env ErrorText _ urlStr s) as [r1 s1] eqn:Hd.
    apply dispatch_spec in Hd as (Em & Hr & _).
    destruct r1 as [l|e]; unfold ret; intros; simplify_eq.
    + destruct Hr as (-> & (content & Eh) & Hp).
      assert (Hh : heap_preserved s s') by (by eapply heap_preserved_app).
      split; [by eapply cache_inv_heap|].
      split; [|split; [by eapply pc_ok_heap|done]].
      simpl. eexists. split.
      { rewrite Eh, lookup_app_r, Nat.sub_diag by lia. reflexivity. }
      simpl. auto.
    + assert (Hh : heap_preserved s s') by (intros ? ?; by rewrite Hr).
      split; [by eapply cache_inv_heap|].
      split; [done|]. split; [by eapply pc_ok_heap|done].
  - revert Hstep. unfold bind, putInCache, ret. intros; simplify_eq.
    destruct Hpc as (m & Hm & <- & Hv & Ht & Hp).
    split; [by eapply cache_inv_put|].
    split; [simpl; eauto 10|]. by split.
  - unfold ret in Hstep. simplify_eq. by repeat split.
Qed.

(** X18. The race between two loads of one specifier is harmless to the
    cache. Whatever the schedule, starting from a state that satisfies the
    cache invariant, the shared state still satisfies it, no module
    allocated before has changed, and a module either call has returned
    is allocated and carries the specifier as its URL and the scheme the
    specifier classifies to. *)
Theorem concurrent_loads_keep_cache_inv (urlStr : string) (sched : list bool) (s : State) :
  cache_inv s ->
  let c := run_schedule urlStr sched (start s) in
  cache_inv (shared c)
  /\ heap_preserved s (shared c)
  /\ pc_ok urlStr (shared c) (first c)
  /\ pc_ok urlStr (shared c) (second c).
Proof.
  intros Hinv.
  induction sched as [|pick sched IH] using rev_ind; simpl.
  { split; [done|]. split; [by intros ? ?|]. by split. }
  rewrite run_schedule_snoc. simpl in IH.
  destruct (run_schedule urlStr sched (start s)) as [p1 p2 sh]. simpl in *.
  destruct IH as (Hi & Hh & H1 & H2).
  unfold sched_step. destruct pick; simpl.
  - destruct (call_step urlStr p1 sh) as [pc' s'] eqn:Hstep. simpl.
    destruct (call_step_sound _ _ p2 _ _ _ Hstep Hi H1 H2) as (? & ? & ? & ?).
    split; [done|]. split; [by eapply heap_preserved_trans|]. by split.
  - destruct (call_step urlStr p2 sh) as [pc' s'] eqn:Hstep. simpl.
    destruct (call_step_sound _ _ p1 _ _ _ Hstep Hi H2 H1) as (? & ? & ? & ?).
    split; [done|]. split; [by eapply heap_preserved_trans|]. by split.
Qed.

End ConcurrencyMore.

Lemma concurrent_loads_keep_cache_inv_witness :
  let c := run_schedule env200 SpecValidateURL SpecErrorText
             "https://cdn.example.com/mod.js"
             [true; false; true; false; true; false] (start (fresh ∅)) in
  cache_inv SpecValidateURL (shared c)
  /\ pc_ok SpecValidateURL "https://cdn.example.com/mod.js" (shared c) (first c).
Proof.
  intros c.
  destruct (concurrent_loads_keep_cache_inv env200 SpecValidateURL SpecErrorText
              "https://cdn.example.com/mod.js"
              [true; false; true; false; true; false] (fresh ∅) (fresh_cache_inv ∅))
    as (Hinv & _ & Hfirst & _).
  split; [exact Hinv | exact Hfirst].
Defined.
